(** * raycast-relay: the protocol translator of [src/index.ts]

    A shallow embedding of the relay's core: the model catalog
    ([fetchModels], [getProviderInfo]), the request translator
    ([convertMessages]), the two readers of the vendor's event stream
    ([parseSSEResponse], [handleStreamingResponse]) and the request
    handler that ties them together ([handleChatCompletions]).

    Conventions.
    - A JavaScript string is a [string]; every character stands for one
      code unit below 256, and a transport chunk is the text the
      [TextDecoder] hands back for it.
    - [Map<string, ModelInfo>] is a [gmap string ModelInfo].
    - [uuidv4()], [Date.now()] and the two vendor endpoints are read from
      a [World]; the calls made so far are counted in [Effects], so the
      n-th call of [uuidv4()] returns [uuid_at w n].
    - [JSON.parse] is a built-in: the development is parametric in it
      ([JsonParse]); [vendor_event_reader] is one instance, used to run
      the scenarios.
    - The body of a vendor answer either arrives to its end or fails
      after some chunks, and then [text()] and [read()] reject
      ([ChatHttpBroken]). An [async] function that throws past its own
      [catch] settles as [Rejected].
    - The client reads a streamed answer to its end, so every
      [writer.write] is accepted: the writable side rejects only once
      the client has cancelled the answer. *)

From Stdlib Require Import Ascii ZArith QArith.
From Stdlib Require String.
From stdpp Require Import base option list sorting strings pretty gmap fin_maps.

Local Open Scope Z_scope.
Local Open Scope nat_scope.

(** ** JavaScript string built-ins used by the relay *)

Module JS.

(** White space and line terminators removed by [String.prototype.trim],
    restricted to code units below 256: TAB, LF, VT, FF, CR, SP, NBSP. *)
Definition is_whitespace (c : ascii) : bool :=
  match c with
  | "009" | "010" | "011" | "012" | "013" | " " | "160" => true
  | _ => false
  end%char.

Fixpoint trimStart (s : string) : string :=
  match s with
  | "" => ""
  | String c r => if is_whitespace c then trimStart r else s
  end.

Definition trimEnd (s : string) : string :=
  String.rev (trimStart (String.rev s)).

(** [s.trim()] *)
Definition trim (s : string) : string := trimEnd (trimStart s).

(** [s.startsWith(p)] *)
Definition startsWith (s p : string) : bool := String.prefix p s.

(** [s.substring(n)] *)
Fixpoint substring_from (n : nat) (s : string) : string :=
  match n, s with
  | O, _ => s
  | S n', String _ r => substring_from n' r
  | S _, "" => ""
  end.

(** [s.substring(0, n)] *)
Fixpoint substring_to (n : nat) (s : string) : string :=
  match n, s with
  | O, _ => ""
  | S n', String c r => String c (substring_to n' r)
  | S _, "" => ""
  end.

(** [s.indexOf(c)] for a one-character needle; [None] stands for -1. *)
Fixpoint indexOf (s : string) (c : ascii) : option nat :=
  match s with
  | "" => None
  | String d r => if decide (d = c) then Some O else S <$> indexOf r c
  end.

(** [s.split(c)] for a one-character separator: never empty. *)
Fixpoint split (s : string) (c : ascii) : list string :=
  match s with
  | "" => [""]
  | String d r =>
      if decide (d = c) then "" :: split r c
      else match split r c with
           | h :: t => String d h :: t
           | [] => [String d ""]
           end
  end.

Definition lower_char (c : ascii) : ascii :=
  let n := nat_of_ascii c in
  if (65 <=? n) && (n <=? 90) then ascii_of_nat (n + 32)
  else if (192 <=? n) && (n <=? 222) && negb (n =? 215) then ascii_of_nat (n + 32)
  else c.

(** [s.toLowerCase()] *)
Fixpoint toLowerCase (s : string) : string :=
  match s with
  | "" => ""
  | String c r => String (lower_char c) (toLowerCase r)
  end.

(** Truthiness of an optional string: [undefined] and [""] are falsy. *)
Definition truthy (o : option string) : bool :=
  match o with
  | Some s => negb (bool_decide (s = ""))
  | None => false
  end.

(** [Array.prototype.forEach((x, index) => ...)] with the callback's
    effect on the enclosing variables passed as a state. *)
Fixpoint forEach {A S : Type} (f : A -> nat -> S -> S)
    (l : list A) (index : nat) (s : S) : S :=
  match l with
  | [] => s
  | x :: l' => forEach f l' (Datatypes.S index) (f x index s)
  end.

End JS.

Definition newline : ascii := "010"%char.
Definition dquote : ascii := "034"%char.

(** [s] between double quotes. *)
Definition quoted (s : string) : string :=
  String dquote (s +:+ String dquote "").

(** ** Types ([types.ts]) *)

Record ModelInfo := { provider : string; model : string }.

Record OpenAIMessage := { role : string; content : string }.

Record RaycastContent := { text : string }.

Record RaycastMessage := { author : string; rm_content : RaycastContent }.

Record RaycastChatRequest := {
  additional_system_instructions : string;
  debug : bool;
  locale : string;
  messages : list RaycastMessage;
  rq_model : string;
  rq_provider : string;
  source : string;
  system_instruction : string;
  temperature : Q;
  thread_id : string;
  tools : list (string * string)
}.

(** [messages] is [None] when the field is missing from the body. *)
Record OpenAIChatRequest := {
  oa_messages : option (list OpenAIMessage);
  oa_model : option string;
  oa_temperature : option Q;
  oa_stream : option bool
}.

(** [text?: string; finish_reason?: string | null]: the outer [None] of
    [sse_finish_reason] is an absent field, [Some None] is [null]. *)
Record RaycastSSEData := {
  sse_text : option string;
  sse_finish_reason : option (option string)
}.

Record RaycastRawModelData := {
  id : string;
  raw_model : string;
  name : string;
  raw_provider : string;
  requires_better_ai : bool;
  availability : string
}.

Record ChunkDelta := { delta_content : string }.

Record ChunkChoice := {
  cc_index : nat;
  delta : ChunkDelta;
  cc_finish_reason : option string
}.

(** The object literal built for every streamed event. *)
Record Chunk := {
  chunk_id : string;
  chunk_object : string;
  chunk_created : Z;
  chunk_model : string;
  chunk_choices : list ChunkChoice
}.

Record CompletionMessage := {
  cm_role : string;
  cm_content : string;
  refusal : option string;
  annotations : list string
}.

Record CompletionChoice := {
  co_index : nat;
  message : CompletionMessage;
  logprobs : option string;
  co_finish_reason : option string
}.

Record Usage := {
  prompt_tokens : nat;
  completion_tokens : nat;
  total_tokens : nat;
  prompt_cached_tokens : nat;
  prompt_audio_tokens : nat;
  reasoning_tokens : nat;
  completion_audio_tokens : nat;
  accepted_prediction_tokens : nat;
  rejected_prediction_tokens : nat
}.

Record OpenAIChatResponse := {
  resp_id : string;
  resp_object : string;
  resp_created : Z;
  resp_model : string;
  resp_choices : list CompletionChoice;
  usage : Usage;
  service_tier : string;
  system_fingerprint : option string
}.

(** What the relay writes to the client side of the [TransformStream]:
    [data: <chunk>] or the closing [data: [DONE]]. *)
Inductive Frame :=
  | DataFrame (c : Chunk)
  | DoneFrame.

(** A stream body is the frames written before the writer is closed; a
    broken stream body is the frames written before [writer.abort(error)],
    with the message of the error. *)
Inductive ResponseBody :=
  | ErrorBody (msg : string) (type : string)
  | CompletionBody (r : OpenAIChatResponse)
  | StreamBody (frames : list Frame)
  | BrokenStreamBody (frames : list Frame) (err : string).

(** How an [async] function settles: with a value, or with what it
    throws past its own [catch]. *)
Inductive Settled (A : Type) :=
  | Resolved (a : A)
  | Rejected (err : string).

Arguments Resolved {A} a.
Arguments Rejected {A} err.

Record Response := { status : nat; body : ResponseBody }.

Record Env := {
  RAYCAST_BEARER_TOKEN : string;
  API_KEY : option string;
  ADVANCED : option string;
  INCLUDE_DEPRECATED : option string
}.

(** ** The outside world *)

(** Answer of the models endpoint: the request fails, or a status comes
    back with the [models] field of the parsed payload ([None] when the
    payload is not JSON or has no such field). *)
Inductive ModelsFetch :=
  | ModelsNetworkError
  | ModelsHttp (m_status : nat) (payload : option (list RaycastRawModelData)).

(** Answer of the chat endpoint: the request fails with a message; or a
    status comes back with the body as the transport delivers it to the
    end, chunk by chunk ([None]: no body); or a status comes back with a
    body whose transport fails after the chunks [delivered], so that
    [text()] and the next [read()] reject with [err]. *)
Inductive ChatFetch :=
  | ChatNetworkError (msg : string)
  | ChatHttp (c_status : nat) (c_body : option (list string))
  | ChatHttpBroken (c_status : nat) (delivered : list string) (err : string).

Record World := {
  uuid_at : nat -> string;
  now_at : nat -> Z;
  models_endpoint : ModelsFetch;
  chat_endpoint : RaycastChatRequest -> ChatFetch
}.

Inductive VendorCall :=
  | GetModels
  | PostChat (rq : RaycastChatRequest).

Record Effects := {
  uuid_calls : nat;
  clock_reads : nat;
  sent : list VendorCall
}.

Definition no_effects : Effects :=
  {| uuid_calls := 0; clock_reads := 0; sent := [] |}.

(** A computation that reads the world and records its effects. *)
Definition M (A : Type) : Type := Effects -> A * Effects.

Definition ret {A} (a : A) : M A := fun e => (a, e).

Definition bind {A B} (m : M A) (k : A -> M B) : M B :=
  fun e => let (a, e') := m e in k a e'.

Notation "'let*' x ':=' m 'in' k" := (bind m (fun x => k))
  (at level 10, x pattern, m at level 100, k at level 200).

Section WorldOps.
Variable w : World.

Definition uuidv4 : M string :=
  fun e => (uuid_at w (uuid_calls e),
            {| uuid_calls := S (uuid_calls e);
               clock_reads := clock_reads e;
               sent := sent e |}).

Definition Date_now : M Z :=
  fun e => (now_at w (clock_reads e),
            {| uuid_calls := uuid_calls e;
               clock_reads := S (clock_reads e);
               sent := sent e |}).

Definition record_call (c : VendorCall) : M unit :=
  fun e => (tt, {| uuid_calls := uuid_calls e;
                   clock_reads := clock_reads e;
                   sent := sent e ++ [c] |}).

Definition fetch_models : M ModelsFetch :=
  let* _ := record_call GetModels in ret (models_endpoint w).

Definition fetch_chat (rq : RaycastChatRequest) : M ChatFetch :=
  let* _ := record_call (PostChat rq) in ret (chat_endpoint w rq).

End WorldOps.

(** [response.ok] *)
Definition ok (st : nat) : bool := (200 <=? st) && (st <=? 299).

(** ** Configuration constants *)

Definition DEFAULT_MODEL_ID : string := "openai-gpt-4o-mini".
Definition DEFAULT_PROVIDER : string := "openai".
Definition DEFAULT_INTERNAL_MODEL : string := "gpt-4o-mini".

(** ** Model catalog *)

(** [env.X?.toLowerCase() !== "false"] *)
Definition flag_enabled (o : option string) : bool :=
  match o with
  | None => true
  | Some s => negb (bool_decide (JS.toLowerCase s = "false"))
  end.

Definition showAdvanced (env : Env) : bool := flag_enabled (ADVANCED env).
Definition includeDeprecated (env : Env) : bool :=
  flag_enabled (INCLUDE_DEPRECATED env).

(** One turn of the [for ... of parsedResponse.models] loop. *)
Definition fetchModels_step (env : Env)
    (models : gmap string ModelInfo) (modelData : RaycastRawModelData)
    : gmap string ModelInfo :=
  let isPremium := requires_better_ai modelData in
  let isDeprecated := bool_decide (availability modelData = "deprecated") in
  if (showAdvanced env || negb isPremium)
     && (includeDeprecated env || negb isDeprecated)
  then <[id modelData :=
           {| provider := raw_provider modelData;
              model := raw_model modelData |}]> models
  else models.

(** Every failure inside the [try] ends in the empty map. *)
Definition fetchModels (w : World) (env : Env) : M (gmap string ModelInfo) :=
  let* response := fetch_models w in
  match response with
  | ModelsNetworkError => ret ∅
  | ModelsHttp st payload =>
      if negb (ok st) then ret ∅
      else match payload with
           | None => ret ∅
           | Some models => ret (foldl (fetchModels_step env) ∅ models)
           end
  end.

Definition getProviderInfo (modelId : string)
    (models : gmap string ModelInfo) : ModelInfo :=
  match models !! modelId with
  | Some info => info
  | None => {| provider := DEFAULT_PROVIDER; model := DEFAULT_INTERNAL_MODEL |}
  end.

(** ** Request translator *)

Record Converted := {
  raycastMessages : list RaycastMessage;
  systemInstruction : string
}.

Definition convertMessages_step (msg : OpenAIMessage) (index : nat)
    (acc : Converted) : Converted :=
  if bool_decide (role msg = "system") && (index =? 0) then
    {| raycastMessages := raycastMessages acc;
       systemInstruction := content msg |}
  else if bool_decide (role msg = "user")
          || bool_decide (role msg = "assistant") then
    {| raycastMessages :=
         raycastMessages acc
           ++ [{| author := role msg;
                  rm_content := {| text := content msg |} |}];
       systemInstruction := systemInstruction acc |}
  else acc.

Definition convertMessages (openaiMessages : list OpenAIMessage) : Converted :=
  JS.forEach convertMessages_step openaiMessages 0
    {| raycastMessages := []; systemInstruction := "markdown" |}.

(** ** Reading the vendor's event stream *)

(** What the [try] block around [JSON.parse] can see: the parse throws,
    it yields [null] (every later field read then throws), or it yields a
    value whose [text] and [finish_reason] fields are read as declared in
    [RaycastSSEData]. *)
Inductive Parsed :=
  | SyntaxError
  | JsonNull
  | JsonData (jsonData : RaycastSSEData).

Class JsonParse := JSON_parse : string -> Parsed.

Definition errorResponse (msg : string) (st : nat) (type : string) : Response :=
  {| status := st; body := ErrorBody msg type |}.

Definition zero_usage : Usage :=
  {| prompt_tokens := 0; completion_tokens := 0; total_tokens := 0;
     prompt_cached_tokens := 0; prompt_audio_tokens := 0;
     reasoning_tokens := 0; completion_audio_tokens := 0;
     accepted_prediction_tokens := 0; rejected_prediction_tokens := 0 |}.

(** State of the background task of [handleStreamingResponse]. *)
Record Pump := {
  buffer : string;
  streamFinished : bool;
  written : list Frame
}.

Section Relay.
Context `{JP : JsonParse}.
Variable w : World.

(** *** Non-streaming: [parseSSEResponse] *)

(** One turn of the [for ... of responseText.split("\n")] loop. *)
Definition parseSSEResponse_step (fullText : string) (line : string) : string :=
  if JS.startsWith line "data:" then
    match JSON_parse (JS.trim (JS.substring_from 5 line)) with
    | JsonData jsonData =>
        if JS.truthy (sse_text jsonData)
        then fullText +:+ default "" (sse_text jsonData)
        else fullText
    | JsonNull => fullText
    | SyntaxError => fullText
    end
  else fullText.

Definition parseSSEResponse (responseText : string) : string :=
  foldl parseSSEResponse_step "" (JS.split responseText newline).

(** [await response.text()]: the whole body, whatever the chunking. *)
Definition response_text (c_body : option (list string)) : string :=
  foldr String.append "" (default [] c_body).

Definition handleNonStreamingResponse (c_body : option (list string))
    (requestedModelId : string) : M Response :=
  let responseText := response_text c_body in
  let fullText := parseSSEResponse responseText in
  let* u := uuidv4 w in
  let* now := Date_now w in
  ret {| status := 200;
         body := CompletionBody
           {| resp_id := "chatcmpl-" +:+ u;
              resp_object := "chat.completion";
              resp_created := (now `div` 1000)%Z;
              resp_model := requestedModelId;
              resp_choices :=
                [{| co_index := 0;
                    message := {| cm_role := "assistant";
                                  cm_content := fullText;
                                  refusal := None;
                                  annotations := [] |};
                    logprobs := None;
                    co_finish_reason := Some "stop" |}];
              usage := zero_usage;
              service_tier := "default";
              system_fingerprint := None |} |}.

(** *** Streaming: [handleStreamingResponse] *)

(** The body of the [try] for one [data:] payload. The object literal
    draws its id and its timestamp before it reads any field of
    [jsonData]. *)
Definition process_data (requestedModelId : string) (dataContent : string)
    (p : Pump) : M Pump :=
  match JSON_parse dataContent with
  | SyntaxError => ret p
  | JsonNull =>
      let* _ := uuidv4 w in
      let* _ := Date_now w in
      ret p
  | JsonData jsonData =>
      let* u := uuidv4 w in
      let* now := Date_now w in
      let chunk :=
        {| chunk_id := "chatcmpl-" +:+ u;
           chunk_object := "chat.completion.chunk";
           chunk_created := (now `div` 1000)%Z;
           chunk_model := requestedModelId;
           chunk_choices :=
             [{| cc_index := 0;
                 delta := {| delta_content :=
                               if JS.truthy (sse_text jsonData)
                               then default "" (sse_text jsonData)
                               else "" |};
                 cc_finish_reason :=
                   match sse_finish_reason jsonData with
                   | None => None
                   | Some r => r
                   end |}] |} in
      ret {| buffer := buffer p;
             streamFinished :=
               match sse_finish_reason jsonData with
               | Some (Some _) => true
               | _ => streamFinished p
               end;
             written := written p ++ [DataFrame chunk] |}
  end.

(** One complete line, already cut out of the buffer. *)
Definition process_line (requestedModelId : string) (line : string)
    (p : Pump) : M Pump :=
  if JS.startsWith line "data:" then
    let dataContent := JS.trim (JS.substring_from 5 line) in
    if bool_decide (dataContent = "[DONE]") then ret p
    else process_data requestedModelId dataContent p
  else ret p.

(** The inner loop [while ((newlineIndex = buffer.indexOf("\n")) >= 0)].
    Every turn shortens the buffer, so [String.length buffer] turns
    are always enough; [fuel] only makes the recursion structural. *)
Fixpoint drain (fuel : nat) (requestedModelId : string) (p : Pump) : M Pump :=
  match fuel with
  | O => ret p
  | S fuel' =>
      match JS.indexOf (buffer p) newline with
      | None => ret p
      | Some newlineIndex =>
          let line := JS.trim (JS.substring_to newlineIndex (buffer p)) in
          let p1 := {| buffer := JS.substring_from (newlineIndex + 1) (buffer p);
                       streamFinished := streamFinished p;
                       written := written p |} in
          let* p2 := process_line requestedModelId line p1 in
          drain fuel' requestedModelId p2
      end
  end.

(** The outer loop [while (!streamFinished)] over the chunks that
    [reader.read()] delivers; the empty list is [done]. *)
Fixpoint pump (chunks : list string) (requestedModelId : string)
    (p : Pump) : M Pump :=
  if streamFinished p then ret p
  else match chunks with
       | [] => ret {| buffer := buffer p; streamFinished := true;
                      written := written p |}
       | value :: rest =>
           let p1 := {| buffer := buffer p +:+ value;
                        streamFinished := streamFinished p;
                        written := written p |} in
           let* p2 := drain (String.length (buffer p1)) requestedModelId p1 in
           pump rest requestedModelId p2
       end.

(** The frames written before the writer is closed. Without a body the
    writer is closed at once; otherwise the loop runs and the
    [data: [DONE]] marker follows. *)
Definition stream_frames (c_body : option (list string))
    (requestedModelId : string) : M (list Frame) :=
  match c_body with
  | None => ret []
  | Some chunks =>
      let* p := pump chunks requestedModelId
                  {| buffer := ""; streamFinished := false; written := [] |} in
      ret (written p ++ [DoneFrame])
  end.

Definition handleStreamingResponse (c_body : option (list string))
    (requestedModelId : string) : M Response :=
  let* frames := stream_frames c_body requestedModelId in
  ret {| status := 200; body := StreamBody frames |}.

(** The outer loop over a body whose reader rejects after [delivered].
    The flag tells whether the rejected [read()] was reached: it is not
    when a finish reason has ended the loop before. *)
Fixpoint pump_failing (delivered : list string) (requestedModelId : string)
    (p : Pump) : M (Pump * bool) :=
  if streamFinished p then ret (p, false)
  else match delivered with
       | [] => ret (p, true)
       | value :: rest =>
           let p1 := {| buffer := buffer p +:+ value;
                        streamFinished := streamFinished p;
                        written := written p |} in
           let* p2 := drain (String.length (buffer p1)) requestedModelId p1 in
           pump_failing rest requestedModelId p2
       end.

(** [handleStreamingResponse] on such a body: when [read()] rejects, the
    [catch] aborts the writer and [data: [DONE]] is not written. *)
Definition handleStreamingResponse_failing (delivered : list string)
    (err : string) (requestedModelId : string) : M Response :=
  let* pa := pump_failing delivered requestedModelId
               {| buffer := ""; streamFinished := false; written := [] |} in
  if pa.2
  then ret {| status := 200; body := BrokenStreamBody (written pa.1) err |}
  else ret {| status := 200;
              body := StreamBody (written pa.1 ++ [DoneFrame]) |}.

(** *** [handleChatCompletions] *)

(** [await req.json()]: the body, or the message of what was thrown. *)
Inductive RequestJson :=
  | JsonThrows (msg : string)
  | JsonBody (body : OpenAIChatRequest).

(** The handlers are returned without [await]: what
    [handleNonStreamingResponse] throws when [response.text()] rejects
    is not caught here, and the function settles as rejected. On an
    answer that is not [ok] the body is read (for the log) inside the
    [try]. *)
Definition handleChatCompletions (req : RequestJson) (env : Env)
    : M (Settled Response) :=
  match req with
  | JsonThrows msg =>
      ret (Resolved
             (errorResponse ("Chat completion failed: " +:+ msg) 500
                "relay_error"))
  | JsonBody body =>
      let messages := default [] (oa_messages body) in
      let requestedModelId := default DEFAULT_MODEL_ID (oa_model body) in
      let temperature := default (1 # 2)%Q (oa_temperature body) in
      let stream := default false (oa_stream body) in
      if (length messages =? 0) then
        ret (Resolved
               (errorResponse "Missing or invalid 'messages' field" 400
                  "invalid_request_error"))
      else
        let* models := fetchModels w env in
        if (size models =? 0) then
          ret (Resolved
                 (errorResponse
                    "No models available. Check server configuration."
                    500 "server_error"))
        else
          let info := getProviderInfo requestedModelId models in
          if negb (bool_decide (is_Some (models !! requestedModelId))) then
            ret (Resolved
                   (errorResponse
                      ("Model " +:+ quoted requestedModelId
                         +:+ " not available. Using default: "
                         +:+ DEFAULT_MODEL_ID)
                      400 "invalid_request_error"))
          else
            let converted := convertMessages messages in
            let* thread := uuidv4 w in
            let raycastRequest :=
              {| rq_model := model info;
                 rq_provider := provider info;
                 messages := raycastMessages converted;
                 system_instruction := systemInstruction converted;
                 temperature := temperature;
                 additional_system_instructions := "";
                 debug := false;
                 locale := "en-US";
                 source := "ai_chat";
                 thread_id := thread;
                 tools := [] |} in
            let* raycastResponse := fetch_chat w raycastRequest in
            match raycastResponse with
            | ChatNetworkError msg =>
                ret (Resolved
                       (errorResponse ("Chat completion failed: " +:+ msg)
                          500 "relay_error"))
            | ChatHttp c_status c_body =>
                if negb (ok c_status) then
                  ret (Resolved
                         (errorResponse
                            ("Raycast API error (" +:+ pretty c_status +:+ ")")
                            502 "bad_gateway"))
                else if stream
                then let* r := handleStreamingResponse c_body requestedModelId in
                     ret (Resolved r)
                else let* r := handleNonStreamingResponse c_body
                                 requestedModelId in
                     ret (Resolved r)
            | ChatHttpBroken c_status delivered err =>
                if negb (ok c_status) then
                  ret (Resolved
                         (errorResponse ("Chat completion failed: " +:+ err)
                            500 "relay_error"))
                else if stream
                then let* r := handleStreamingResponse_failing delivered err
                                 requestedModelId in
                     ret (Resolved r)
                else ret (Rejected err)
            end
  end.

End Relay.

(** ** A reader for the vendor's event payloads

    An instance of [JsonParse] for the payloads the vendor sends: the
    literal [null], or a flat object whose members are string literals or
    [null]. A [text] member that is [null] reads as an absent one (both
    are falsy in the two places [text] is used). Anything else is
    reported as a syntax error; the scenarios below stay inside this
    fragment. *)

Inductive Token :=
  | TLBrace
  | TRBrace
  | TColon
  | TComma
  | TString (s : string)
  | TWord (s : string).

Inductive LexState :=
  | LOut
  | LStr (acc : string)
  | LEsc (acc : string)
  | LWord (acc : string).

Definition json_ws (c : ascii) : bool :=
  match c with
  | "009" | "010" | "013" | " " => true
  | _ => false
  end%char.

Definition is_lower (c : ascii) : bool :=
  let n := nat_of_ascii c in (97 <=? n) && (n <=? 122).

Definition snoc_char (acc : string) (c : ascii) : string :=
  acc +:+ String c "".

Definition lex_out (c : ascii) : option (list Token * LexState) :=
  if json_ws c then Some ([], LOut)
  else match c with
       | "{" => Some ([TLBrace], LOut)
       | "}" => Some ([TRBrace], LOut)
       | ":" => Some ([TColon], LOut)
       | "," => Some ([TComma], LOut)
       | "034" => Some ([], LStr "")
       | _ => if is_lower c then Some ([], LWord (String c "")) else None
       end%char.

Definition unescape (c : ascii) : option ascii :=
  match c with
  | "034" => Some "034"
  | "\" => Some "\"
  | "/" => Some "/"
  | "b" => Some "008"
  | "f" => Some "012"
  | "n" => Some "010"
  | "r" => Some "013"
  | "t" => Some "009"
  | _ => None
  end%char.

Definition lex_step (st : LexState) (c : ascii)
    : option (list Token * LexState) :=
  match st with
  | LOut => lex_out c
  | LStr acc =>
      if decide (c = dquote) then Some ([TString acc], LOut)
      else if decide (c = "\"%char) then Some ([], LEsc acc)
      else if nat_of_ascii c <? 32 then None
      else Some ([], LStr (snoc_char acc c))
  | LEsc acc =>
      match unescape c with
      | Some c' => Some ([], LStr (snoc_char acc c'))
      | None => None
      end
  | LWord acc =>
      if is_lower c then Some ([], LWord (snoc_char acc c))
      else match lex_out c with
           | Some (toks, st') => Some (TWord acc :: toks, st')
           | None => None
           end
  end.

Fixpoint lex (st : LexState) (s : string) : option (list Token) :=
  match s with
  | "" =>
      match st with
      | LOut => Some []
      | LWord acc => Some [TWord acc]
      | LStr _ | LEsc _ => None
      end
  | String c r =>
      match lex_step st c with
      | Some (toks, st') =>
          match lex st' r with
          | Some rest => Some (toks ++ rest)
          | None => None
          end
      | None => None
      end
  end.

(** A member value of the fragment: a string, or [null] as [None]. *)
Definition member_value (t : Token) : option (option string) :=
  match t with
  | TString s => Some (Some s)
  | TWord wd => if bool_decide (wd = "null") then Some None else None
  | _ => None
  end.

(** A later member of the same name replaces an earlier one. *)
Definition set_member (k : string) (v : option string)
    (d : RaycastSSEData) : RaycastSSEData :=
  if bool_decide (k = "text") then
    {| sse_text := v; sse_finish_reason := sse_finish_reason d |}
  else if bool_decide (k = "finish_reason") then
    {| sse_text := sse_text d; sse_finish_reason := Some v |}
  else d.

Fixpoint parse_members (toks : list Token) (d : RaycastSSEData) : Parsed :=
  match toks with
  | TString k :: TColon :: v :: rest =>
      match member_value v with
      | None => SyntaxError
      | Some val =>
          match rest with
          | [TRBrace] => JsonData (set_member k val d)
          | TComma :: rest' => parse_members rest' (set_member k val d)
          | _ => SyntaxError
          end
      end
  | _ => SyntaxError
  end.

Definition no_fields : RaycastSSEData :=
  {| sse_text := None; sse_finish_reason := None |}.

Definition parse_tokens (toks : list Token) : Parsed :=
  match toks with
  | [TWord wd] => if bool_decide (wd = "null") then JsonNull else SyntaxError
  | [TLBrace; TRBrace] => JsonData no_fields
  | TLBrace :: rest => parse_members rest no_fields
  | _ => SyntaxError
  end.

Definition vendor_event_reader : JsonParse :=
  fun s =>
    match lex LOut s with
    | Some toks => parse_tokens toks
    | None => SyntaxError
    end.

(** ** Scenarios *)

(** [data: {"k":"v"}] followed by a line feed. *)
Definition data_line (k v : string) : string :=
  "data: {" +:+ quoted k +:+ ":" +:+ quoted v +:+ "}" +:+ String newline "".

(** Scenario B: three events, one transport chunk each. *)
Definition scenario_B : list string :=
  [data_line "text" "Hel"; data_line "text" "lo";
   data_line "finish_reason" "stop"].

(** A finish event and a later event, delivered together or apart. *)
Definition finish_then_late_together : list string :=
  [data_line "finish_reason" "stop" +:+ data_line "text" "late"].

Definition finish_then_late_apart : list string :=
  [data_line "finish_reason" "stop"; data_line "text" "late"].

(** A body whose last line has no line feed. *)
Definition unterminated_tail : list string :=
  ["data: {" +:+ quoted "text" +:+ ":" +:+ quoted "Hi" +:+ "}"].

Definition demo_models : list RaycastRawModelData :=
  [{| id := "openai-gpt-4o-mini"; raw_model := "gpt-4o-mini";
      name := "GPT-4o mini"; raw_provider := "openai";
      requires_better_ai := false; availability := "public" |};
   {| id := "anthropic-claude-opus"; raw_model := "claude-opus";
      name := "Claude Opus"; raw_provider := "anthropic";
      requires_better_ai := true; availability := "public" |};
   {| id := "openai-gpt-3.5"; raw_model := "gpt-3.5-turbo";
      name := "GPT-3.5"; raw_provider := "openai";
      requires_better_ai := false; availability := "deprecated" |}].

(** A world whose n-th uuid and n-th clock reading are told apart by n,
    and whose chat endpoint answers every request alike. *)
Definition demo_world (answer : ChatFetch) : World :=
  {| uuid_at := fun n => "uuid-" +:+ pretty n;
     now_at := fun n => (1700000000000 + 1000 * Z.of_nat n)%Z;
     models_endpoint := ModelsHttp 200 (Some demo_models);
     chat_endpoint := fun _ => answer |}.

Definition demo_env : Env :=
  {| RAYCAST_BEARER_TOKEN := "token"; API_KEY := None;
     ADVANCED := Some "False"; INCLUDE_DEPRECATED := None |}.

Definition demo_request (m : string) (streaming : bool) : RequestJson :=
  JsonBody {| oa_messages := Some [{| role := "system"; content := "Be terse" |};
                                   {| role := "user"; content := "hi" |}];
              oa_model := Some m;
              oa_temperature := None;
              oa_stream := Some streaming |}.


(** ** Vocabulary of the statements *)

(** The lines of [s] that end in a line feed, and what follows the last
    line feed. *)
Definition complete_lines (s : string) : list string :=
  removelast (JS.split s newline).

Definition pending (s : string) : string :=
  List.last (JS.split s newline) "".

Definition no_newline (s : string) : Prop := JS.indexOf s newline = None.

(** A finish reason that is present and not [null]. *)
Definition has_finish (d : RaycastSSEData) : bool :=
  match sse_finish_reason d with
  | Some (Some _) => true
  | _ => false
  end.

(** The [choices] a chunk is expected to carry for an event. *)
Definition expected_choices (d : RaycastSSEData) : list ChunkChoice :=
  [{| cc_index := 0;
      delta := {| delta_content := default "" (sse_text d) |};
      cc_finish_reason := default None (sse_finish_reason d) |}].

Definition frame_choices (f : Frame) : option (list ChunkChoice) :=
  match f with
  | DataFrame c => Some (chunk_choices c)
  | DoneFrame => None
  end.

Definition frame_chunk (f : Frame) : option Chunk :=
  match f with
  | DataFrame c => Some c
  | DoneFrame => None
  end.

(** The events up to and including the first one that carries a finish
    reason. *)
Fixpoint through_finish (evs : list RaycastSSEData) : list RaycastSSEData :=
  match evs with
  | [] => []
  | d :: rest => if has_finish d then [d] else d :: through_finish rest
  end.

Definition with_buffer (b : string) (p : Pump) : Pump :=
  {| buffer := b; streamFinished := streamFinished p; written := written p |}.

(** The state in which the background task starts. *)
Definition fresh_pump : Pump :=
  {| buffer := ""; streamFinished := false; written := [] |}.

(** One more [uuidv4()] and one more [Date.now()]. *)
Definition tick (e : Effects) : Effects :=
  {| uuid_calls := S (uuid_calls e);
     clock_reads := S (clock_reads e);
     sent := sent e |}.

(** Id, timestamp and model of a chunk. *)
Definition chunk_stamp (c : Chunk) : string * Z * string :=
  (chunk_id c, chunk_created c, chunk_model c).

Section Events.
Context `{JP : JsonParse}.
Variable w : World.

(** The stamp of a chunk built [a] draws after [e]. *)
Definition stamp_at (e : Effects) (requestedModelId : string) (a : nat)
    : string * Z * string :=
  ("chatcmpl-" +:+ uuid_at w (uuid_calls e + a),
   (now_at w (clock_reads e + a) `div` 1000)%Z,
   requestedModelId).

(** The chunk built for event [d] when the draws stand at [e]. *)
Definition chunk_at (e : Effects) (requestedModelId : string)
    (d : RaycastSSEData) : Chunk :=
  {| chunk_id := "chatcmpl-" +:+ uuid_at w (uuid_calls e);
     chunk_object := "chat.completion.chunk";
     chunk_created := (now_at w (clock_reads e) `div` 1000)%Z;
     chunk_model := requestedModelId;
     chunk_choices := expected_choices d |}.

(** The chunks written so far carry the stamps of strictly increasing
    draws made since [e0], and nothing but draws happened since. *)
Definition stamped (requestedModelId : string) (e0 : Effects)
    (p : Pump) (e : Effects) : Prop :=
  exists (n : nat) (attempts : list nat),
    e = Nat.iter n tick e0
    /\ Forall (fun a => a < n) attempts
    /\ StronglySorted lt attempts
    /\ map chunk_stamp (omap frame_chunk (written p))
       = map (stamp_at e0 requestedModelId) attempts.

(** The lines completed by one transport chunk, handled in order. *)
Fixpoint feed (requestedModelId : string) (lines : list string)
    (p : Pump) : M Pump :=
  match lines with
  | [] => ret p
  | raw :: rest =>
      let* p' := process_line w requestedModelId (JS.trim raw) p in
      feed requestedModelId rest p'
  end.

(** The event a line of the vendor stream stands for in streaming mode:
    the line is trimmed, must start with [data:], and its payload must
    not be [[DONE]] and must parse to a value other than [null]. *)
Definition stream_event (raw : string) : option RaycastSSEData :=
  let line := JS.trim raw in
  if JS.startsWith line "data:" then
    let dataContent := JS.trim (JS.substring_from 5 line) in
    if bool_decide (dataContent = "[DONE]") then None
    else match JSON_parse dataContent with
         | JsonData d => Some d
         | _ => None
         end
  else None.

(** The same for the non-streaming parser, which looks for [data:] at
    the very start of the untrimmed line. *)
Definition sse_event (line : string) : option RaycastSSEData :=
  if JS.startsWith line "data:" then
    match JSON_parse (JS.trim (JS.substring_from 5 line)) with
    | JsonData d => Some d
    | _ => None
    end
  else None.

(** No event follows a finish-reason event among the lines completed by
    one and the same transport chunk. [buf] is what the earlier chunks
    left pending. *)
Fixpoint finish_ends_chunk (buf : string) (chunks : list string) : bool :=
  match chunks with
  | [] => true
  | value :: rest =>
      let evs := omap stream_event (complete_lines (buf +:+ value)) in
      if existsb has_finish evs
      then forallb (fun d => negb (has_finish d)) (removelast evs)
      else finish_ends_chunk (pending (buf +:+ value)) rest
  end.

End Events.

(** The text a client assembles from the streamed deltas. *)
Definition streamed_text (frames : list Frame) : string :=
  foldr String.append ""
    (map delta_content
       (map delta (concat (omap frame_choices frames)))).

(** The content of the single choice of a completion. *)
Definition completion_content (r : Response) : option string :=
  match body r with
  | CompletionBody c =>
      match resp_choices c with
      | [ch] => Some (cm_content (message ch))
      | _ => None
      end
  | _ => None
  end.

(** [w] with a chat endpoint that gives the same answer to every request. *)
Definition with_chat_answer (w : World) (answer : ChatFetch) : World :=
  {| uuid_at := uuid_at w; now_at := now_at w;
     models_endpoint := models_endpoint w;
     chat_endpoint := fun _ => answer |}.

(** A flag of the environment that is set to [false] in any letter case. *)
Definition explicitly_disabled (o : option string) : Prop :=
  exists s, o = Some s /\ JS.toLowerCase s = "false".

(** The retention rule of the catalog, gate by gate. *)
Definition retained (env : Env) (md : RaycastRawModelData) : Prop :=
  (~ explicitly_disabled (ADVANCED env) \/ requires_better_ai md = false)
  /\ (~ explicitly_disabled (INCLUDE_DEPRECATED env)
      \/ availability md <> "deprecated").

(** The effects after one request to the models endpoint. *)
Definition after_models_fetch (e : Effects) : Effects :=
  {| uuid_calls := uuid_calls e; clock_reads := clock_reads e;
     sent := sent e ++ [GetModels] |}.

Definition to_vendor (m : OpenAIMessage) : RaycastMessage :=
  {| author := role m; rm_content := {| text := content m |} |}.

Definition forwarded (m : OpenAIMessage) : Prop :=
  role m = "user" \/ role m = "assistant".

#[global] Instance forwarded_dec (m : OpenAIMessage) : Decision (forwarded m).
Proof. unfold forwarded. apply _. Defined.

Definition catalog_entry (m : RaycastRawModelData) : ModelInfo :=
  {| provider := raw_provider m; model := raw_model m |}.

(** ** The worker: credentials, preflight, API key, routes

    The relay's responses above carry a status and a body; the headers
    each constructor sets are a function of the kind of body
    ([relay_headers]). The worker's own responses add the model list,
    the health answer and the empty preflight answer. *)

Record ModelListing := {
  ml_id : string;
  ml_object : string;
  ml_created : Z;
  owned_by : string
}.

Inductive WorkerBody :=
  | RelayBody (b : ResponseBody)
  | ModelsBody (data : list ModelListing)
  | HealthBody
  | NullBody.

Record WorkerResponse := {
  w_status : nat;
  w_headers : list (string * string);
  w_body : WorkerBody
}.

(** What the worker reads of a [Request]: method, [url.pathname], the
    value [headers.get("Authorization")] and the outcome of [json()]. *)
Record WorkerRequest := {
  req_method : string;
  req_pathname : string;
  req_authorization : option string;
  req_json : RequestJson
}.

Definition json_headers : list (string * string) :=
  [("Content-Type", "application/json");
   ("Access-Control-Allow-Origin", "*")].

Definition event_stream_headers : list (string * string) :=
  [("Content-Type", "text/event-stream");
   ("Cache-Control", "no-cache");
   ("Connection", "keep-alive");
   ("Access-Control-Allow-Origin", "*")].

(** The headers given to [new Response] by [errorResponse],
    [handleNonStreamingResponse] and [handleStreamingResponse]. *)
Definition relay_headers (b : ResponseBody) : list (string * string) :=
  match b with
  | ErrorBody _ _ => json_headers
  | CompletionBody _ => json_headers
  | StreamBody _ => event_stream_headers
  | BrokenStreamBody _ _ => event_stream_headers
  end.

Definition relay_response (r : Response) : WorkerResponse :=
  {| w_status := status r;
     w_headers := relay_headers (body r);
     w_body := RelayBody (body r) |}.

(** [headers.has(name)]: header names compare without regard to case. *)
Definition headers_has (hs : list (string * string)) (name : string) : bool :=
  existsb (fun h => bool_decide (JS.toLowerCase h.1 = JS.toLowerCase name)) hs.

(** [headers.get(name)] *)
Definition headers_get (hs : list (string * string)) (name : string)
    : option string :=
  snd <$> find (fun h => bool_decide (JS.toLowerCase h.1 = JS.toLowerCase name)) hs.

(** [headers.set(name, value)] on headers that lack [name]. *)
Definition headers_append (hs : list (string * string)) (name value : string)
    : list (string * string) :=
  hs ++ [(name, value)].

Definition handleOptions : WorkerResponse :=
  {| w_status := 200;
     w_headers :=
       [("Access-Control-Allow-Origin", "*");
        ("Access-Control-Allow-Methods", "GET, POST, OPTIONS");
        ("Access-Control-Allow-Headers", "Content-Type, Authorization");
        ("Access-Control-Max-Age", "86400")];
     w_body := NullBody |}.

(** [validateApiKey]: an unset or empty [API_KEY] lets every request
    through; otherwise the header must be [Bearer ] followed by the key. *)
Definition validateApiKey (req : WorkerRequest) (env : Env) : bool :=
  if negb (JS.truthy (API_KEY env)) then true
  else
    let authHeader := req_authorization req in
    let providedKey :=
      match authHeader with
      | Some h =>
          if JS.startsWith h "Bearer " then Some (JS.substring_from 7 h)
          else None
      | None => None
      end in
    bool_decide (providedKey = API_KEY env).

(** [Map.prototype.set] on the entries of a [Map], kept in insertion
    order: a key that is present keeps its place. *)
Fixpoint Map_set (k : string) (v : ModelInfo)
    (entries : list (string * ModelInfo)) : list (string * ModelInfo) :=
  match entries with
  | [] => [(k, v)]
  | (k', v') :: rest =>
      if decide (k' = k) then (k, v) :: rest
      else (k', v') :: Map_set k v rest
  end.

(** [fetchModels_step] on the ordered entries. *)
Definition fetchModels_entries_step (env : Env)
    (entries : list (string * ModelInfo)) (modelData : RaycastRawModelData)
    : list (string * ModelInfo) :=
  let isPremium := requires_better_ai modelData in
  let isDeprecated := bool_decide (availability modelData = "deprecated") in
  if (showAdvanced env || negb isPremium)
     && (includeDeprecated env || negb isDeprecated)
  then Map_set (id modelData)
         {| provider := raw_provider modelData;
            model := raw_model modelData |} entries
  else entries.

(** [fetchModels] with the [Map] as its entries in iteration order, for
    [handleModels], which lists them ([fetchModels_entries_refines]
    relates it to [fetchModels]). *)
Definition fetchModels_entries (w : World) (env : Env)
    : M (list (string * ModelInfo)) :=
  let* response := fetch_models w in
  match response with
  | ModelsNetworkError => ret []
  | ModelsHttp st payload =>
      if negb (ok st) then ret []
      else match payload with
           | None => ret []
           | Some models => ret (foldl (fetchModels_entries_step env) [] models)
           end
  end.

Module Worker.
Section Worker.
Context `{JP : JsonParse}.
Variable w : World.

(** The callback of [Array.from(models.entries()).map(...)], entry by
    entry: each listing reads the clock. *)
Fixpoint list_models (entries : list (string * ModelInfo))
    : M (list ModelListing) :=
  match entries with
  | [] => ret []
  | (k, info) :: rest =>
      let* now := Date_now w in
      let* listed := list_models rest in
      ret ({| ml_id := k; ml_object := "model";
              ml_created := (now `div` 1000)%Z;
              owned_by := provider info |} :: listed)
  end.

Definition handleModels (env : Env) : M WorkerResponse :=
  let* models := fetchModels_entries w env in
  let* data := list_models models in
  ret {| w_status := 200; w_headers := json_headers;
         w_body := ModelsBody data |}.

Definition health : WorkerResponse :=
  {| w_status := 200; w_headers := json_headers; w_body := HealthBody |}.

(** The route table inside the [try] of [fetch]. *)
Definition route (request : WorkerRequest) (env : Env)
    : M (Settled WorkerResponse) :=
  if bool_decide (req_pathname request = "/v1/chat/completions")
     && bool_decide (req_method request = "POST") then
    let* s := handleChatCompletions w (req_json request) env in
    match s with
    | Resolved r => ret (Resolved (relay_response r))
    | Rejected err => ret (Rejected err)
    end
  else if bool_decide (req_pathname request = "/v1/models")
          && bool_decide (req_method request = "GET") then
    let* r := handleModels env in
    ret (Resolved r)
  else if bool_decide (req_pathname request = "/health")
          && bool_decide (req_method request = "GET") then
    ret (Resolved health)
  else
    ret (Resolved
           (relay_response
              (errorResponse "Not Found" 404 "invalid_request_error"))).

(** The worker's [fetch] handler. What a handler throws past its own
    [catch] ends in the [catch] around the route table. *)
Definition fetch (request : WorkerRequest) (env : Env) : M WorkerResponse :=
  if bool_decide (RAYCAST_BEARER_TOKEN env = "") then
    ret (relay_response
           (errorResponse
              "Server configuration error: Missing Raycast credentials"
              500 "server_error"))
  else if bool_decide (req_method request = "OPTIONS") then
    ret handleOptions
  else if negb (validateApiKey request env) then
    ret (relay_response
           (errorResponse "Invalid API key provided." 401
              "authentication_error"))
  else
    let* routed := route request env in
    match routed with
    | Resolved response =>
        if negb (headers_has (w_headers response)
                   "Access-Control-Allow-Origin")
        then ret {| w_status := w_status response;
                    w_headers := headers_append (w_headers response)
                                   "Access-Control-Allow-Origin" "*";
                    w_body := w_body response |}
        else ret response
    | Rejected _ =>
        ret (relay_response
               (errorResponse "An unexpected internal server error occurred."
                  500 "server_error"))
    end.

End Worker.
End Worker.

(** ** Further vocabulary *)

(** A chunk frame of a response for [requestedModelId]: the fixed
    [object], the requested model and a single choice of index 0. *)
Definition is_chunk_for (requestedModelId : string) (f : Frame) : Prop :=
  match f with
  | DataFrame c =>
      chunk_object c = "chat.completion.chunk"
      /\ chunk_model c = requestedModelId
      /\ exists ch, chunk_choices c = [ch] /\ cc_index ch = 0
  | DoneFrame => False
  end.

(** The test of the catalog loop on one fetched model. *)
Definition passes_filter (env : Env) (md : RaycastRawModelData) : bool :=
  (showAdvanced env || negb (requires_better_ai md))
  && (includeDeprecated env
      || negb (bool_decide (availability md = "deprecated"))).

(** The role and text of an incoming and of a forwarded message. *)
Definition said (msg : OpenAIMessage) : string * string :=
  (role msg, content msg).

Definition relayed (rm : RaycastMessage) : string * string :=
  (author rm, text (rm_content rm)).

(** The effects after the catalog fetch, the draw of the thread id and
    the chat request [rq]. *)
Definition after_chat_request (e : Effects) (rq : RaycastChatRequest) : Effects :=
  {| uuid_calls := S (uuid_calls e);
     clock_reads := clock_reads e;
     sent := sent e ++ [GetModels; PostChat rq] |}.

(** The request the relay builds for the vendor out of a chat request,
    the catalog entry of its model and a thread id. *)
Definition vendor_request (body : OpenAIChatRequest) (msgs : list OpenAIMessage)
    (info : ModelInfo) (thread : string) : RaycastChatRequest :=
  {| rq_model := model info;
     rq_provider := provider info;
     messages := raycastMessages (convertMessages msgs);
     system_instruction := systemInstruction (convertMessages msgs);
     temperature := default (1 # 2)%Q (oa_temperature body);
     additional_system_instructions := "";
     debug := false;
     locale := "en-US";
     source := "ai_chat";
     thread_id := thread;
     tools := [] |}.

(** A chat request without a readable body or without messages. *)
Definition lacks_messages (req : RequestJson) : Prop :=
  match req with
  | JsonThrows _ => True
  | JsonBody body => oa_messages body = None \/ oa_messages body = Some []
  end.

(** The model id a chat request asks for. *)
Definition requested_model (body : OpenAIChatRequest) : string :=
  default DEFAULT_MODEL_ID (oa_model body).

(** A world whose models endpoint offers one premium model only. *)
Definition premium_only_world : World :=
  {| uuid_at := fun n => "uuid-" +:+ pretty n;
     now_at := fun n => (1700000000000 + 1000 * Z.of_nat n)%Z;
     models_endpoint :=
       ModelsHttp 200
         (Some [{| id := "anthropic-claude-opus"; raw_model := "claude-opus";
                   name := "Claude Opus"; raw_provider := "anthropic";
                   requires_better_ai := true; availability := "public" |}]);
     chat_endpoint := fun _ => ChatHttp 200 (Some scenario_B) |}.

(** A chat request body with the two messages of Scenario A. *)
Definition terse_body (m : option string) (streaming : option bool)
    : OpenAIChatRequest :=
  {| oa_messages := Some [{| role := "system"; content := "Be terse" |};
                          {| role := "user"; content := "hi" |}];
     oa_model := m;
     oa_temperature := None;
     oa_stream := streaming |}.

(** The listings of a [/v1/models] answer. *)
Definition listed_models (r : WorkerResponse) : list ModelListing :=
  match w_body r with
  | ModelsBody data => data
  | _ => []
  end.

(** The three routes of the worker. *)
Definition chat_route (request : WorkerRequest) : Prop :=
  req_pathname request = "/v1/chat/completions" /\ req_method request = "POST".

Definition models_route (request : WorkerRequest) : Prop :=
  req_pathname request = "/v1/models" /\ req_method request = "GET".

Definition health_route (request : WorkerRequest) : Prop :=
  req_pathname request = "/health" /\ req_method request = "GET".

(** The status codes the worker answers with. *)
Definition worker_statuses : list nat := [200; 400; 401; 404; 500; 502].

(** The models endpoint gives nothing to list. *)
Definition models_fetch_failed (r : ModelsFetch) : Prop :=
  match r with
  | ModelsNetworkError => True
  | ModelsHttp st payload => ok st = false \/ payload = None
  end.

(** The vendor calls one chat request may add. *)
Inductive chat_calls : list VendorCall -> Prop :=
  | calls_none : chat_calls []
  | calls_catalog : chat_calls [GetModels]
  | calls_relay (rq : RaycastChatRequest) : chat_calls [GetModels; PostChat rq].

(** * Properties *)

(** Unfolds the effect layer down to plain state passing. *)
Ltac run_effects :=
  unfold fetch_models, fetch_chat, record_call, uuidv4, Date_now, bind, ret.

(** ** Strings *)

Lemma app_cons (c : ascii) (r s : string) :
  String c r +:+ s = String c (r +:+ s).
Proof. reflexivity. Qed.

Lemma app_empty_l (s : string) : "" +:+ s = s.
Proof. reflexivity. Qed.

Lemma app_empty_r (s : string) : s +:+ "" = s.
Proof. induction s as [|c r IH]; [done | by rewrite app_cons, IH]. Qed.

Lemma app_assoc_str (s1 s2 s3 : string) :
  (s1 +:+ s2) +:+ s3 = s1 +:+ s2 +:+ s3.
Proof. induction s1 as [|c r IH]; [done | by rewrite !app_cons, IH]. Qed.

Lemma split_nonempty (s : string) (c : ascii) : JS.split s c <> [].
Proof.
  destruct s as [|d r]; simpl; [done |].
  destruct (decide (d = c)); [done |].
  destruct (JS.split r c); done.
Qed.

Lemma indexOf_None_split (s : string) (c : ascii) :
  JS.indexOf s c = None -> JS.split s c = [s].
Proof.
  induction s as [|d r IH]; simpl; [done |].
  destruct (decide (d = c)); [done |].
  destruct (JS.indexOf r c); [done |]. intros _.
  by rewrite IH.
Qed.

Lemma indexOf_Some_split (s : string) (c : ascii) (i : nat) :
  JS.indexOf s c = Some i ->
  JS.split s c = JS.substring_to i s :: JS.split (JS.substring_from (i + 1) s) c.
Proof.
  revert i. induction s as [|d r IH]; intros i; simpl; [done |].
  destruct (decide (d = c)).
  - intros [= <-]. done.
  - destruct (JS.indexOf r c) as [j|] eqn:E; [| done].
    intros [= <-]. simpl. by rewrite (IH j eq_refl).
Qed.

Lemma indexOf_Some_length (s : string) (c : ascii) (i : nat) :
  JS.indexOf s c = Some i ->
  String.length (JS.substring_from (i + 1) s) < String.length s.
Proof.
  revert i. induction s as [|d r IH]; intros i; simpl; [done |].
  destruct (decide (d = c)).
  - intros [= <-]. simpl. lia.
  - destruct (JS.indexOf r c) as [j|] eqn:E; [| done].
    intros [= <-]. simpl. specialize (IH j eq_refl). lia.
Qed.

Lemma indexOf_app_None (s1 s2 : string) (c : ascii) :
  JS.indexOf s1 c = None -> JS.indexOf s2 c = None ->
  JS.indexOf (s1 +:+ s2) c = None.
Proof.
  induction s1 as [|d r IH]; [done |]. rewrite app_cons. simpl.
  destruct (decide (d = c)); [done |].
  destruct (JS.indexOf r c) eqn:E; [done |]. intros _ H2.
  by rewrite (IH eq_refl H2).
Qed.

Lemma complete_lines_no_newline (s : string) :
  no_newline s -> complete_lines s = [].
Proof. intros H. unfold complete_lines. by rewrite (indexOf_None_split _ _ H). Qed.

Lemma pending_no_newline (s : string) : no_newline s -> pending s = s.
Proof. intros H. unfold pending. by rewrite (indexOf_None_split _ _ H). Qed.

Lemma complete_lines_step (s : string) (i : nat) :
  JS.indexOf s newline = Some i ->
  complete_lines s
  = JS.substring_to i s :: complete_lines (JS.substring_from (i + 1) s).
Proof.
  intros H. unfold complete_lines. rewrite (indexOf_Some_split _ _ _ H).
  simpl. destruct (JS.split _ _) eqn:E; [| done].
  by destruct (split_nonempty _ _ E).
Qed.

Lemma pending_step (s : string) (i : nat) :
  JS.indexOf s newline = Some i ->
  pending s = pending (JS.substring_from (i + 1) s).
Proof.
  intros H. unfold pending. rewrite (indexOf_Some_split _ _ _ H).
  simpl. destruct (JS.split _ _) eqn:E; [| done].
  by destruct (split_nonempty _ _ E).
Qed.

Lemma indexOf_Some_app (s1 s2 : string) (c : ascii) (i : nat) :
  JS.indexOf s1 c = Some i ->
  JS.indexOf (s1 +:+ s2) c = Some i
  /\ JS.substring_to i (s1 +:+ s2) = JS.substring_to i s1
  /\ JS.substring_from (i + 1) (s1 +:+ s2) = JS.substring_from (i + 1) s1 +:+ s2.
Proof.
  revert i. induction s1 as [|d r IH]; intros i; [done |].
  rewrite app_cons. simpl.
  destruct (decide (d = c)).
  - intros [= <-]. done.
  - destruct (JS.indexOf r c) as [j|] eqn:E; [| done].
    intros [= <-]. destruct (IH j eq_refl) as (-> & H2 & H3).
    simpl. by rewrite H2, H3.
Qed.

(** Induction on the length of a string, for the loops that cut the
    buffer at a line feed. *)
Lemma shorter_ind (P : string -> Prop) :
  (forall s, (forall s', String.length s' < String.length s -> P s') -> P s) ->
  forall s, P s.
Proof.
  intros step s. remember (String.length s) as n eqn:Hn.
  revert s Hn. induction n as [n IH] using lt_wf_ind.
  intros s ->. apply step. intros s' Hlt. by apply (IH _ Hlt).
Qed.

Lemma pending_has_no_newline (s : string) : no_newline (pending s).
Proof.
  induction s as [s IH] using shorter_ind.
  destruct (JS.indexOf s newline) as [i|] eqn:E.
  - rewrite (pending_step _ _ E). apply IH.
    by apply indexOf_Some_length with (c := newline).
  - by rewrite pending_no_newline by exact E.
Qed.

(** Chunk boundaries do not matter to the lines: cutting [s1 +:+ s2]
    after [s1] leaves [pending s1] to be completed by [s2]. *)
Lemma complete_lines_app (s1 s2 : string) :
  complete_lines (s1 +:+ s2)
  = complete_lines s1 ++ complete_lines (pending s1 +:+ s2).
Proof.
  induction s1 as [s1 IH] using shorter_ind.
  destruct (JS.indexOf s1 newline) as [i|] eqn:E.
  - destruct (indexOf_Some_app _ s2 _ _ E) as (E' & Hto & Hfrom).
    rewrite (complete_lines_step _ _ E'), (complete_lines_step _ _ E),
      (pending_step _ _ E), Hto, Hfrom.
    rewrite IH by (by apply indexOf_Some_length with (c := newline)).
    done.
  - by rewrite (complete_lines_no_newline s1), (pending_no_newline s1) by exact E.
Qed.

Lemma pending_app (s1 s2 : string) :
  pending (s1 +:+ s2) = pending (pending s1 +:+ s2).
Proof.
  induction s1 as [s1 IH] using shorter_ind.
  destruct (JS.indexOf s1 newline) as [i|] eqn:E.
  - destruct (indexOf_Some_app _ s2 _ _ E) as (E' & Hto & Hfrom).
    rewrite (pending_step _ _ E'), (pending_step _ _ E), Hfrom.
    by apply IH, indexOf_Some_length with (c := newline).
  - by rewrite (pending_no_newline s1) by exact E.
Qed.

(** ** The streaming loop, line by line *)

Section Streaming.
Context `{JP : JsonParse}.
Variable w : World.
Variable m : string.

Lemma with_buffer_id (p : Pump) : with_buffer (buffer p) p = p.
Proof. by destruct p. Qed.

Lemma process_line_event (raw : string) (d : RaycastSSEData) (p : Pump) (e : Effects) :
  stream_event raw = Some d ->
  process_line w m (JS.trim raw) p e
  = ({| buffer := buffer p;
        streamFinished := has_finish d || streamFinished p;
        written := written p ++ [DataFrame (chunk_at w e m d)] |}, tick e).
Proof.
  unfold stream_event, process_line.
  destruct (JS.startsWith _ _); [| done].
  destruct (bool_decide _); [done |].
  unfold process_data.
  destruct (JSON_parse _) as [| |jd]; [done | done |]. intros [= ->].
  run_effects. unfold chunk_at, expected_choices, has_finish, tick.
  simpl. do 3 f_equal.
  - destruct (sse_finish_reason d) as [[?|]|]; done.
  - do 4 f_equal.
    destruct d as [[t|] [r|]]; simpl; try done;
      unfold JS.truthy; simpl; case_bool_decide; simpl; congruence.
Qed.

Lemma process_line_no_event (raw : string) (p : Pump) (e : Effects) :
  stream_event raw = None ->
  process_line w m (JS.trim raw) p e = (p, e)
  \/ process_line w m (JS.trim raw) p e = (p, tick e).
Proof.
  unfold stream_event, process_line.
  destruct (JS.startsWith _ _); [| by left].
  destruct (bool_decide _); [by left |].
  unfold process_data.
  destruct (JSON_parse _) as [| |jd]; [by left | by right | done].
Qed.

Lemma process_line_with_buffer (line b : string) (p : Pump) (e : Effects) :
  process_line w m line (with_buffer b p) e
  = (with_buffer b (process_line w m line p e).1, (process_line w m line p e).2).
Proof.
  unfold process_line.
  destruct (JS.startsWith _ _); [| done].
  destruct (bool_decide _); [done |].
  unfold process_data. destruct (JSON_parse _); done.
Qed.

Lemma feed_with_buffer (ls : list string) (b : string) (p : Pump) (e : Effects) :
  feed w m ls (with_buffer b p) e
  = (with_buffer b (feed w m ls p e).1, (feed w m ls p e).2).
Proof.
  revert p e. induction ls as [|raw ls IH]; intros p e; [done |].
  simpl. unfold bind. rewrite process_line_with_buffer.
  destruct (process_line w m (JS.trim raw) p e) as [p' e']. simpl.
  apply IH.
Qed.

(** The inner loop handles exactly the complete lines of the buffer and
    leaves what follows the last line feed. *)
Lemma drain_feed (fuel : nat) (p : Pump) (e : Effects) :
  String.length (buffer p) <= fuel ->
  drain w fuel m p e
  = feed w m (complete_lines (buffer p)) (with_buffer (pending (buffer p)) p) e.
Proof.
  revert p e. induction fuel as [|fuel IH]; intros p e Hlen.
  - assert (E : JS.indexOf (buffer p) newline = None)
      by (destruct (buffer p); [done | simpl in Hlen; lia]).
    rewrite (complete_lines_no_newline _ E), (pending_no_newline _ E).
    simpl. by rewrite with_buffer_id.
  - simpl. destruct (JS.indexOf (buffer p) newline) as [i|] eqn:E.
    + rewrite (complete_lines_step _ _ E), (pending_step _ _ E). simpl.
      unfold bind.
      pose proof (indexOf_Some_length _ _ _ E) as Hshort.
      fold (with_buffer (JS.substring_from (i + 1) (buffer p)) p).
      rewrite !(process_line_with_buffer _ _ p e).
      destruct (process_line w m _ p e) as [p' e'] eqn:Ep. simpl.
      rewrite IH by (simpl; lia). simpl.
      by rewrite !feed_with_buffer.
    + rewrite (complete_lines_no_newline _ E), (pending_no_newline _ E).
      simpl. by rewrite with_buffer_id.
Qed.

Lemma pump_finished (chunks : list string) (p : Pump) (e : Effects) :
  streamFinished p = true -> pump w chunks m p e = (p, e).
Proof. intros H. destruct chunks; simpl; rewrite H; done. Qed.

Lemma pump_nil (p : Pump) (e : Effects) :
  streamFinished p = false ->
  (pump w [] m p e).1 = with_buffer (buffer p) {| buffer := ""; streamFinished := true; written := written p |}
  /\ (pump w [] m p e).2 = e.
Proof. intros H. simpl. by rewrite H. Qed.

Lemma pump_cons (value : string) (rest : list string) (p : Pump) (e : Effects) :
  streamFinished p = false ->
  pump w (value :: rest) m p e
  = pump w rest m
      (feed w m (complete_lines (buffer p +:+ value))
         (with_buffer (pending (buffer p +:+ value)) p) e).1
      (feed w m (complete_lines (buffer p +:+ value))
         (with_buffer (pending (buffer p +:+ value)) p) e).2.
Proof.
  intros H. simpl. rewrite H. unfold bind.
  rewrite drain_feed by done. unfold with_buffer. simpl. rewrite H.
  by destruct (feed w m _ _ e).
Qed.

(** What a run of lines leaves behind: the buffer is untouched, the flag
    is raised by any finish reason, one chunk is written per event. *)
Lemma feed_summary (ls : list string) (p : Pump) (e : Effects) :
  buffer (feed w m ls p e).1 = buffer p
  /\ streamFinished (feed w m ls p e).1
     = existsb has_finish (omap stream_event ls) || streamFinished p
  /\ map frame_choices (written (feed w m ls p e).1)
     = map frame_choices (written p)
       ++ map (fun d => Some (expected_choices d)) (omap stream_event ls).
Proof.
  revert p e. induction ls as [|raw ls IH]; intros p e.
  - simpl. by rewrite app_nil_r.
  - simpl. unfold bind.
    destruct (stream_event raw) as [d|] eqn:Ev.
    + rewrite (process_line_event _ _ _ _ Ev).
      destruct (IH {| buffer := buffer p;
                      streamFinished := has_finish d || streamFinished p;
                      written := written p ++ [DataFrame (chunk_at w e m d)] |}
                   (tick e)) as (Hb & Hf & Hw).
      rewrite Hb, Hf, Hw. simpl. split; [done |]. split.
      * by destruct (has_finish d), (existsb _ _), (streamFinished p).
      * rewrite map_app. simpl. by rewrite <- app_assoc.
    + destruct (process_line_no_event raw p e Ev) as [-> | ->]; apply IH.
Qed.

Lemma iter_tick_calls (n : nat) (e : Effects) :
  uuid_calls (Nat.iter n tick e) = uuid_calls e + n
  /\ clock_reads (Nat.iter n tick e) = clock_reads e + n
  /\ sent (Nat.iter n tick e) = sent e.
Proof.
  induction n as [|n (IHu & IHc & IHs)]; simpl.
  - by rewrite !Nat.add_0_r.
  - rewrite IHu, IHc, IHs. repeat split; lia.
Qed.

Lemma stamped_start (e0 : Effects) (p : Pump) :
  written p = [] -> stamped w m e0 p e0.
Proof.
  intros Hw. exists 0, []. rewrite Hw. repeat split; constructor.
Qed.

Lemma stamped_tick (e0 : Effects) (p : Pump) (e : Effects) :
  stamped w m e0 p e -> stamped w m e0 p (tick e).
Proof.
  intros (n & att & -> & Hlt & Hs & Hw). exists (S n), att.
  repeat split; try done.
  eapply Forall_impl; [exact Hlt |]. simpl. lia.
Qed.

Lemma stamped_emit (e0 : Effects) (p : Pump) (e : Effects)
    (d : RaycastSSEData) (fin : bool) :
  stamped w m e0 p e ->
  stamped w m e0
    {| buffer := buffer p; streamFinished := fin;
       written := written p ++ [DataFrame (chunk_at w e m d)] |} (tick e).
Proof.
  intros (n & att & -> & Hlt & Hs & Hw). exists (S n), (att ++ [n]).
  split; [done |]. split; [| split].
  - apply Forall_app. split.
    + eapply Forall_impl; [exact Hlt |]. simpl. lia.
    + constructor; [lia | constructor].
  - apply StronglySorted_app. repeat split.
    + intros a b Ha Hb. apply list_elem_of_singleton in Hb as ->.
      by apply (proj1 (Forall_forall _ _) Hlt).
    + done.
    + repeat constructor.
  - simpl. rewrite omap_app, !map_app, Hw. simpl. f_equal.
    unfold chunk_stamp, chunk_at, stamp_at. simpl.
    destruct (iter_tick_calls n e0) as (-> & -> & _). done.
Qed.

Lemma stamped_written (e0 : Effects) (p p' : Pump) (e : Effects) :
  written p' = written p -> stamped w m e0 p e -> stamped w m e0 p' e.
Proof. unfold stamped. by intros ->. Qed.

Lemma feed_stamped (e0 : Effects) (ls : list string) (p : Pump) (e : Effects) :
  stamped w m e0 p e ->
  stamped w m e0 (feed w m ls p e).1 (feed w m ls p e).2.
Proof.
  revert p e. induction ls as [|raw ls IH]; intros p e Hst; [done |].
  simpl. unfold bind.
  destruct (stream_event raw) as [d|] eqn:Ev.
  - rewrite (process_line_event _ _ _ _ Ev). by apply IH, stamped_emit.
  - destruct (process_line_no_event raw p e Ev) as [-> | ->]; apply IH;
      [done | by apply stamped_tick].
Qed.

Lemma pump_stamped (e0 : Effects) (chunks : list string) (p : Pump) (e : Effects) :
  stamped w m e0 p e ->
  stamped w m e0 (pump w chunks m p e).1 (pump w chunks m p e).2.
Proof.
  revert p e. induction chunks as [|value rest IH]; intros p e Hst.
  - simpl. by destruct (streamFinished p).
  - destruct (streamFinished p) eqn:Hf.
    + by rewrite pump_finished.
    + rewrite pump_cons by done. apply IH, feed_stamped.
      by apply (stamped_written e0 p).
Qed.

Lemma through_finish_app_clean (evs1 evs2 : list RaycastSSEData) :
  existsb has_finish evs1 = false ->
  through_finish (evs1 ++ evs2) = evs1 ++ through_finish evs2.
Proof.
  induction evs1 as [|d r IH]; simpl; [done |].
  destruct (has_finish d); simpl; [done |]. intros H. by rewrite IH.
Qed.

Lemma through_finish_app_last (evs1 evs2 : list RaycastSSEData) :
  existsb has_finish evs1 = true ->
  forallb (fun d => negb (has_finish d)) (removelast evs1) = true ->
  through_finish (evs1 ++ evs2) = evs1.
Proof.
  induction evs1 as [|d r IH]; [done |].
  destruct r as [|d' r'].
  - simpl. destruct (has_finish d); done.
  - change (removelast (d :: d' :: r')) with (d :: removelast (d' :: r')).
    change (through_finish ((d :: d' :: r') ++ evs2))
      with (if has_finish d then [d]
            else d :: through_finish ((d' :: r') ++ evs2)).
    change (existsb has_finish (d :: d' :: r'))
      with (has_finish d || existsb has_finish (d' :: r')).
    change (forallb (fun d => negb (has_finish d)) (d :: removelast (d' :: r')))
      with (negb (has_finish d)
            && forallb (fun d => negb (has_finish d)) (removelast (d' :: r'))).
    destruct (has_finish d); [done |].
    intros H1 H2. f_equal. by apply IH.
Qed.

(** When no event follows a finish event inside one transport chunk,
    the loop writes one chunk per event of the whole stream, up to and
    including the first finish event. *)
Lemma pump_choices (chunks : list string) (p : Pump) (e : Effects) :
  streamFinished p = false ->
  no_newline (buffer p) ->
  finish_ends_chunk (buffer p) chunks = true ->
  map frame_choices (written (pump w chunks m p e).1)
  = map frame_choices (written p)
    ++ map (fun d => Some (expected_choices d))
         (through_finish
            (omap stream_event
               (complete_lines (buffer p +:+ foldr String.append "" chunks)))).
Proof.
  revert p e. induction chunks as [|value rest IH]; intros p e Hf Hnl Hclean.
  - destruct (pump_nil p e Hf) as [-> _]. simpl.
    rewrite app_empty_r, (complete_lines_no_newline _ Hnl). simpl.
    by rewrite app_nil_r.
  - rewrite pump_cons by done. simpl in Hclean |- *.
    rewrite <- app_assoc_str, (complete_lines_app (buffer p +:+ value)), omap_app.
    destruct (feed_summary (complete_lines (buffer p +:+ value))
                (with_buffer (pending (buffer p +:+ value)) p) e)
      as (Hb & Hflag & Hw).
    simpl in Hb, Hflag, Hw. rewrite Hf, orb_false_r in Hflag.
    destruct (existsb has_finish
                (omap stream_event (complete_lines (buffer p +:+ value))))
      eqn:Hfin.
    + rewrite pump_finished by done. cbn [fst].
      by rewrite Hw, through_finish_app_last.
    + rewrite IH; [| done | rewrite Hb; apply pending_has_no_newline
                   | by rewrite Hb].
      rewrite Hw, Hb, through_finish_app_clean by done.
      by rewrite map_app, app_assoc.
Qed.

(** Chunks without a line feed complete no line: nothing is written and
    nothing is drawn for them. *)
Lemma pump_tail (tail : list string) (p : Pump) (e : Effects) :
  no_newline (buffer p) ->
  Forall no_newline tail ->
  written (pump w tail m p e).1 = written p /\ (pump w tail m p e).2 = e.
Proof.
  revert p. induction tail as [|t tail IH]; intros p Hnl Htail.
  - simpl. by destruct (streamFinished p).
  - destruct (streamFinished p) eqn:Hf.
    + by rewrite pump_finished.
    + apply Forall_cons in Htail as [Ht Htail].
      assert (Hnl' : no_newline (buffer p +:+ t)) by by apply indexOf_app_None.
      rewrite pump_cons by done.
      rewrite (complete_lines_no_newline _ Hnl'), (pending_no_newline _ Hnl').
      simpl. by destruct (IH (with_buffer (buffer p +:+ t) p)) as [-> ->].
Qed.

(** Two deliveries that agree up to some point and whose remainders are
    handled alike are handled alike as a whole. *)
Lemma pump_app_cong (chunks xs ys : list string) :
  (forall p e, no_newline (buffer p) ->
     written (pump w xs m p e).1 = written (pump w ys m p e).1
     /\ (pump w xs m p e).2 = (pump w ys m p e).2) ->
  forall p e, no_newline (buffer p) ->
    written (pump w (chunks ++ xs) m p e).1
    = written (pump w (chunks ++ ys) m p e).1
    /\ (pump w (chunks ++ xs) m p e).2 = (pump w (chunks ++ ys) m p e).2.
Proof.
  intros Hrest. induction chunks as [|value rest IH]; intros p e Hnl.
  - by apply Hrest.
  - destruct (streamFinished p) eqn:Hf.
    + by rewrite !pump_finished.
    + rewrite <- !app_comm_cons, !pump_cons by done. apply IH.
      destruct (feed_summary (complete_lines (buffer p +:+ value))
                  (with_buffer (pending (buffer p +:+ value)) p) e)
        as (-> & _). apply pending_has_no_newline.
Qed.

Lemma pump_unterminated (c t : string) (tail : list string)
    (p : Pump) (e : Effects) :
  no_newline t -> Forall no_newline tail -> no_newline (buffer p) ->
  written (pump w ((c +:+ t) :: tail) m p e).1 = written (pump w [c] m p e).1
  /\ (pump w ((c +:+ t) :: tail) m p e).2 = (pump w [c] m p e).2.
Proof.
  intros Ht Htail Hnl.
  destruct (streamFinished p) eqn:Hf.
  - by rewrite !pump_finished.
  - rewrite !pump_cons by done.
    rewrite <- app_assoc_str, (complete_lines_app (buffer p +:+ c)),
      (pending_app (buffer p +:+ c)).
    assert (Hnl' : no_newline (pending (buffer p +:+ c) +:+ t))
      by by apply indexOf_app_None; [apply pending_has_no_newline |].
    rewrite (complete_lines_no_newline _ Hnl'), (pending_no_newline _ Hnl').
    rewrite app_nil_r.
    rewrite (feed_with_buffer _ (pending (buffer p +:+ c) +:+ t)).
    rewrite (feed_with_buffer _ (pending (buffer p +:+ c))).
    simpl.
    destruct (pump_tail tail
                (with_buffer (pending (buffer p +:+ c) +:+ t)
                   (feed w m (complete_lines (buffer p +:+ c)) p e).1)
                (feed w m (complete_lines (buffer p +:+ c)) p e).2)
      as [-> ->]; [done | done |].
    by destruct (streamFinished (feed w m _ p e).1).
Qed.

End Streaming.

(** ** The streamed response *)

Section StreamedResponse.
Context `{JP : JsonParse}.
Variable w : World.
Variable m : string.

Lemma stream_frames_some (chunks : list string) (e : Effects) :
  stream_frames w (Some chunks) m e
  = (written (pump w chunks m fresh_pump e).1 ++ [DoneFrame],
     (pump w chunks m fresh_pump e).2).
Proof.
  unfold stream_frames, bind, ret, fresh_pump.
  by destruct (pump w chunks m _ e).
Qed.

(** Supporting fact for C4: deliveries of one byte stream in which the
    finish event is the last event of its transport chunk are streamed
    alike, wherever the chunk boundaries fall. *)
Lemma chunking_invariant_when_finish_ends_chunk
    (chunks1 chunks2 : list string) (e1 e2 : Effects) :
  foldr String.append "" chunks1 = foldr String.append "" chunks2 ->
  finish_ends_chunk "" chunks1 = true ->
  finish_ends_chunk "" chunks2 = true ->
  map frame_choices (stream_frames w (Some chunks1) m e1).1
  = map frame_choices (stream_frames w (Some chunks2) m e2).1.
Proof.
  intros Hsame H1 H2. rewrite !stream_frames_some. cbn [fst].
  rewrite !map_app.
  rewrite (pump_choices w m chunks1 fresh_pump e1) by done.
  rewrite (pump_choices w m chunks2 fresh_pump e2) by done.
  cbn [buffer fresh_pump]. by rewrite !app_empty_l, Hsame.
Qed.

End StreamedResponse.

(** C3 (counterexample). Scenario B is not streamed as the two deltas
    "Hel" and "lo" followed by the sentinel: a third chunk, for the
    finish event, stands before the sentinel. *)
Lemma scenario_B_is_not_two_deltas :
  map frame_choices
    (@stream_frames vendor_event_reader (demo_world (ChatNetworkError ""))
       (Some scenario_B) "openai-gpt-4o-mini" no_effects).1
  <> [Some [{| cc_index := 0; delta := {| delta_content := "Hel" |};
               cc_finish_reason := None |}];
      Some [{| cc_index := 0; delta := {| delta_content := "lo" |};
               cc_finish_reason := None |}];
      None].
Proof. vm_compute. discriminate. Qed.

(** C3 (as amended). Provided no event follows a finish-reason event
    among the lines completed by the same transport chunk, the frames
    written before [data: [DONE]] are exactly one chunk per successfully
    parsed event, in arrival order, up to and including the first event
    with a finish reason; each chunk carries the event's text (the empty
    string when the event has none) and the event's finish reason ([null]
    when absent or [null]), and the sentinel is the last frame. For
    Scenario B this gives three chunks: "Hel", "lo" and an empty delta
    with finish reason "stop", then the sentinel. *)
Theorem streamed_chunks_follow_events :
  (forall (JP : JsonParse) (w : World) (m : string)
          (chunks : list string) (e : Effects),
     finish_ends_chunk "" chunks = true ->
     map frame_choices (stream_frames w (Some chunks) m e).1
     = map (fun d => Some (expected_choices d))
         (through_finish
            (omap stream_event
               (complete_lines (foldr String.append "" chunks))))
       ++ [None])
  /\ (forall (w : World) (m : string) (e : Effects),
        map frame_choices
          (@stream_frames vendor_event_reader w (Some scenario_B) m e).1
        = [Some [{| cc_index := 0; delta := {| delta_content := "Hel" |};
                    cc_finish_reason := None |}];
           Some [{| cc_index := 0; delta := {| delta_content := "lo" |};
                    cc_finish_reason := None |}];
           Some [{| cc_index := 0; delta := {| delta_content := "" |};
                    cc_finish_reason := Some "stop" |}];
           None]).
Proof.
  split.
  - intros JP w m chunks e Hclean.
    rewrite stream_frames_some. cbn [fst]. rewrite map_app.
    by rewrite (pump_choices w m chunks fresh_pump e).
  - intros w m e. vm_compute. reflexivity.
Qed.

Lemma streamed_chunks_follow_events_witness :
  finish_ends_chunk (JP := vendor_event_reader) "" scenario_B = true
  /\ map frame_choices
       (@stream_frames vendor_event_reader (demo_world (ChatNetworkError ""))
          (Some scenario_B) "openai-gpt-4o-mini" no_effects).1
     = map (fun d => Some (expected_choices d))
         (through_finish
            (omap (stream_event (JP := vendor_event_reader))
               (complete_lines (foldr String.append "" scenario_B))))
       ++ [None].
Proof.
  split.
  - vm_compute. reflexivity.
  - apply (proj1 streamed_chunks_follow_events vendor_event_reader).
    vm_compute. reflexivity.
Defined.

(** C1 (the code departs from the claim). A finish-reason event and a
    later [data:] line arrive in one transport chunk: the inner loop
    never looks at [streamFinished], so a delta chunk for the later
    event is written between the finish chunk and the sentinel. *)
Theorem finish_event_does_not_stop_the_chunk :
  forall (w : World) (m : string) (e : Effects),
    map frame_choices
      (@stream_frames vendor_event_reader w
         (Some finish_then_late_together) m e).1
    = [Some [{| cc_index := 0; delta := {| delta_content := "" |};
                cc_finish_reason := Some "stop" |}];
       Some [{| cc_index := 0; delta := {| delta_content := "late" |};
                cc_finish_reason := None |}];
       None].
Proof. intros w m e. vm_compute. reflexivity. Qed.

(** C4 (the code departs from the claim). The same bytes, cut after the
    finish event or not cut at all: the aggregate of the non-streaming
    path is the same, the streamed chunk sequences differ. *)
Theorem chunk_boundary_changes_stream :
  foldr String.append "" finish_then_late_together
  = foldr String.append "" finish_then_late_apart
  /\ @parseSSEResponse vendor_event_reader
       (response_text (Some finish_then_late_together))
     = @parseSSEResponse vendor_event_reader
         (response_text (Some finish_then_late_apart))
  /\ forall (w : World) (m : string) (e : Effects),
       map frame_choices
         (@stream_frames vendor_event_reader w
            (Some finish_then_late_apart) m e).1
       = [Some [{| cc_index := 0; delta := {| delta_content := "" |};
                   cc_finish_reason := Some "stop" |}];
          None]
       /\ map frame_choices
            (@stream_frames vendor_event_reader w
               (Some finish_then_late_together) m e).1
          <> map frame_choices
               (@stream_frames vendor_event_reader w
                  (Some finish_then_late_apart) m e).1.
Proof.
  split; [by vm_compute |]. split; [by vm_compute |].
  intros w m e. split; [by vm_compute |].
  vm_compute. discriminate.
Qed.

(** C2 (counterexample). In Scenario B the three chunks of one response
    carry three different ids. *)
Lemma chunk_ids_differ_within_response :
  ~ exists i : string,
      Forall (fun c => chunk_id c = i)
        (omap frame_chunk
           (@stream_frames vendor_event_reader
              (demo_world (ChatNetworkError ""))
              (Some scenario_B) "openai-gpt-4o-mini" no_effects).1).
Proof.
  intros [i H]. vm_compute in H.
  apply Forall_cons in H as [H1 H]. apply Forall_cons in H as [H2 _].
  rewrite <- H1 in H2. discriminate.
Qed.

(** C2 (as amended). Every streamed chunk carries an id [chatcmpl-<uuid>]
    whose uuid is drawn for that chunk alone (the draws of successive
    chunks are strictly increasing, so the id is not shared by the chunks
    of a response), the model id the caller requested, and the clock
    reading of that draw in whole seconds; the non-streaming completion
    carries the id of one draw, the requested model id and the clock
    reading in whole seconds. *)
Theorem chunk_stamps_are_fresh_draws :
  forall (JP : JsonParse) (w : World) (c_body : option (list string))
         (m : string) (e : Effects),
    (exists attempts : list nat,
        StronglySorted lt attempts
        /\ map chunk_stamp
             (omap frame_chunk (stream_frames w c_body m e).1)
           = map (stamp_at w e m) attempts)
    /\ (exists r : OpenAIChatResponse,
          body (handleNonStreamingResponse w c_body m e).1 = CompletionBody r
          /\ (resp_id r, resp_created r, resp_model r) = stamp_at w e m 0).
Proof.
  intros JP w c_body m e. split.
  - destruct c_body as [chunks|].
    + rewrite stream_frames_some. cbn [fst].
      destruct (pump_stamped w m e chunks fresh_pump e)
        as (n & att & _ & _ & Hsorted & Hw).
      { by apply stamped_start. }
      exists att. split; [done |].
      rewrite omap_app. simpl. by rewrite app_nil_r.
    + exists []. split; [constructor | done].
  - eexists. split; [reflexivity |].
    unfold stamp_at. simpl. by rewrite !Nat.add_0_r.
Qed.

(** C10. Streaming mode drops what follows the last line feed: a
    delivery that goes on after [chunks ++ [c]] with text free of line
    feeds, at the end of [c] or in further chunks, writes the same frames
    and makes the same draws as [chunks ++ [c]] alone, and so does a
    delivery that goes on after [chunks] in further chunks. The
    non-streaming parser handles the final unterminated line like any
    other line. For the body [data: {"text":"Hi"}] without a line feed
    the stream is the sentinel alone while the completion reads "Hi". *)
Theorem unterminated_tail_is_dropped_only_when_streaming :
  forall (JP : JsonParse) (w : World) (m : string),
    (forall (chunks : list string) (c t : string) (tail : list string)
            (e : Effects),
        no_newline t -> Forall no_newline tail ->
        stream_frames w (Some (chunks ++ (c +:+ t) :: tail)) m e
        = stream_frames w (Some (chunks ++ [c])) m e
        /\ stream_frames w (Some (chunks ++ tail)) m e
           = stream_frames w (Some chunks) m e)
    /\ (forall (s t : string),
          pending s = "" -> no_newline t ->
          parseSSEResponse (s +:+ t)
          = parseSSEResponse_step (parseSSEResponse s) t)
    /\ (@stream_frames vendor_event_reader w (Some unterminated_tail) m
          no_effects).1 = [DoneFrame]
    /\ streamed_text
         (@stream_frames vendor_event_reader w (Some unterminated_tail) m
            no_effects).1 = ""
    /\ completion_content
         (@handleNonStreamingResponse vendor_event_reader w
            (Some unterminated_tail) m no_effects).1 = Some "Hi".
Proof.
  intros JP w m. split; [| split; [| by vm_compute]].
  - intros chunks c t tail e Ht Htail. split.
    + rewrite !stream_frames_some.
      destruct (pump_app_cong w m chunks ((c +:+ t) :: tail) [c]
                  (fun p e' => pump_unterminated w m c t tail p e' Ht Htail)
                  fresh_pump e) as [-> ->]; done.
    + rewrite !stream_frames_some.
      rewrite <- (app_nil_r chunks) at 3 4.
      destruct (pump_app_cong w m chunks tail [] ) with (p := fresh_pump) (e := e)
        as [-> ->]; [| done | done].
      intros p e' Hnl.
      destruct (pump_tail w m tail p e' Hnl Htail) as [-> ->].
      simpl. by destruct (streamFinished p).
  - intros s t Hs Ht. unfold parseSSEResponse.
    assert (Hsplit : JS.split (s +:+ t) newline = complete_lines s ++ [t]).
    { assert (H1 : complete_lines (s +:+ t) = complete_lines s).
      { rewrite complete_lines_app, Hs, app_empty_l.
        by rewrite (complete_lines_no_newline _ Ht), app_nil_r. }
      assert (H2 : pending (s +:+ t) = t).
      { by rewrite pending_app, Hs, app_empty_l, (pending_no_newline _ Ht). }
      etrans; [apply (app_removelast_last ""), split_nonempty |].
      change (complete_lines (s +:+ t) ++ [pending (s +:+ t)]
              = complete_lines s ++ [t]).
      by rewrite H1, H2. }
    assert (Hsplit' : JS.split s newline = complete_lines s ++ [""]).
    { etrans; [apply (app_removelast_last ""), split_nonempty |].
      change (complete_lines s ++ [pending s] = complete_lines s ++ [""]).
      by rewrite Hs. }
    rewrite Hsplit, Hsplit', !foldl_app. simpl.
    unfold parseSSEResponse_step at 3. by simpl.
Qed.

Lemma unterminated_tail_is_dropped_only_when_streaming_witness :
  no_newline ("data: {" +:+ quoted "text" +:+ ":" +:+ quoted "Hi" +:+ "}")
  /\ Forall no_newline ["  "]
  /\ @stream_frames vendor_event_reader (demo_world (ChatNetworkError ""))
       (Some ([data_line "text" "Hel"]
              ++ (data_line "text" "lo"
                  +:+ ("data: {" +:+ quoted "text" +:+ ":" +:+ quoted "Hi" +:+ "}"))
                 :: ["  "]))
       "openai-gpt-4o-mini" no_effects
     = @stream_frames vendor_event_reader (demo_world (ChatNetworkError ""))
         (Some ([data_line "text" "Hel"] ++ [data_line "text" "lo"]))
         "openai-gpt-4o-mini" no_effects.
Proof.
  split; [vm_compute; reflexivity |].
  split; [repeat constructor |].
  apply (proj1 (unterminated_tail_is_dropped_only_when_streaming
                  vendor_event_reader (demo_world (ChatNetworkError ""))
                  "openai-gpt-4o-mini")).
  - vm_compute. reflexivity.
  - repeat constructor.
Defined.

(** ** The aggregated response *)

Section Aggregate.
Context `{JP : JsonParse}.

Lemma parseSSEResponse_step_event (fullText line : string) :
  parseSSEResponse_step fullText line
  = fullText +:+ from_option (fun d => default "" (sse_text d)) "" (sse_event line).
Proof.
  unfold parseSSEResponse_step, sse_event.
  destruct (JS.startsWith line "data:"); simpl; [| by rewrite app_empty_r].
  destruct (JSON_parse _) as [| |[[t|] r]]; simpl;
    try by rewrite app_empty_r.
  unfold JS.truthy. case_bool_decide as Ht; simpl; [| done].
  by rewrite Ht, app_empty_r.
Qed.

Lemma foldl_parseSSEResponse_step (acc : string) (ls : list string) :
  foldl parseSSEResponse_step acc ls
  = acc +:+ foldr String.append ""
              (map (fun d => default "" (sse_text d)) (omap sse_event ls)).
Proof.
  revert acc. induction ls as [|line ls IH]; intros acc; simpl.
  - by rewrite app_empty_r.
  - rewrite IH, parseSSEResponse_step_event.
    destruct (sse_event line) as [d|]; simpl.
    + by rewrite app_assoc_str.
    + by rewrite app_empty_r.
Qed.

End Aggregate.

(** C5. The content of the non-streaming completion is the
    concatenation, in arrival order, of the [text] of every event parsed
    from a [data:] line of the vendor body, an event without [text]
    adding the empty string; for Scenario B it is "Hello". *)
Theorem aggregate_is_concatenation_of_event_texts :
  (forall (JP : JsonParse) (w : World) (c_body : option (list string))
          (m : string) (e : Effects),
     completion_content (handleNonStreamingResponse w c_body m e).1
     = Some (foldr String.append ""
               (map (fun d => default "" (sse_text d))
                  (omap sse_event
                     (JS.split (response_text c_body) newline)))))
  /\ (forall (w : World) (m : string) (e : Effects),
        completion_content
          (@handleNonStreamingResponse vendor_event_reader w
             (Some scenario_B) m e).1 = Some "Hello").
Proof.
  split.
  - intros JP w c_body m e. unfold completion_content. simpl. f_equal.
    unfold parseSSEResponse. by rewrite foldl_parseSSEResponse_step.
  - intros w m e. vm_compute. reflexivity.
Qed.

(** ** The request translator *)

Lemma forwarded_bool (msg : OpenAIMessage) :
  bool_decide (role msg = "user") || bool_decide (role msg = "assistant")
  = bool_decide (forwarded msg).
Proof.
  destruct (decide (forwarded msg)) as [H|H].
  - rewrite (bool_decide_eq_true_2 _ H). apply orb_true_iff.
    destruct H; [left | right]; by apply bool_decide_eq_true.
  - rewrite (bool_decide_eq_false_2 _ H). apply orb_false_iff.
    unfold forwarded in H. split; apply bool_decide_eq_false; tauto.
Qed.

(** After position 0 the callback only filters and maps. *)
Lemma forEach_after_first (l : list OpenAIMessage) (n : nat) (acc : Converted) :
  JS.forEach convertMessages_step l (S n) acc
  = {| raycastMessages :=
         raycastMessages acc ++ map to_vendor (filter forwarded l);
       systemInstruction := systemInstruction acc |}.
Proof.
  revert n acc. induction l as [|msg l IH]; intros n acc.
  - simpl. rewrite app_nil_r. by destruct acc.
  - simpl. rewrite IH, filter_cons. unfold convertMessages_step at 1 2.
    rewrite andb_false_r, forwarded_bool.
    destruct (decide (forwarded msg)) as [H|H].
    + rewrite (bool_decide_eq_true_2 _ H). simpl. by rewrite <- app_assoc.
    + by rewrite (bool_decide_eq_false_2 _ H).
Qed.

(** C6. The translation takes the content of a leading system message
    as the system instruction and leaves that message out, and takes
    "markdown" otherwise; the vendor messages are the remaining user and
    assistant messages, in order, each as [{author, content: {text}}];
    later system messages and other roles are dropped. Scenario A. *)
Theorem convertMessages_spec :
  (forall msgs : list OpenAIMessage,
     convertMessages msgs
     = match msgs with
       | first :: rest =>
           if bool_decide (role first = "system")
           then {| raycastMessages := map to_vendor (filter forwarded rest);
                   systemInstruction := content first |}
           else {| raycastMessages := map to_vendor (filter forwarded msgs);
                   systemInstruction := "markdown" |}
       | [] => {| raycastMessages := []; systemInstruction := "markdown" |}
       end)
  /\ convertMessages [{| role := "system"; content := "Be terse" |};
                      {| role := "user"; content := "hi" |}]
     = {| raycastMessages :=
            [{| author := "user"; rm_content := {| text := "hi" |} |}];
          systemInstruction := "Be terse" |}.
Proof.
  split; [| by vm_compute].
  intros [|first rest]; [done |].
  unfold convertMessages. simpl. rewrite forEach_after_first.
  unfold convertMessages_step. rewrite andb_true_r, forwarded_bool.
  case_bool_decide as Hsys; simpl; [done |].
  rewrite filter_cons.
  destruct (decide (forwarded first)) as [H|H].
  - by rewrite (bool_decide_eq_true_2 _ H).
  - by rewrite (bool_decide_eq_false_2 _ H).
Qed.

(** ** The model catalog *)

Lemma flag_enabled_spec (o : option string) :
  flag_enabled o = true <-> ~ explicitly_disabled o.
Proof.
  unfold flag_enabled, explicitly_disabled. destruct o as [s|].
  - rewrite negb_true_iff, bool_decide_eq_false. split.
    + intros Hne (s' & [= <-] & Hs). done.
    + intros Hno Hs. apply Hno. by exists s.
  - split; [| done]. by intros _ (s & ? & _).
Qed.

Lemma keep_spec (env : Env) (md : RaycastRawModelData) :
  (showAdvanced env || negb (requires_better_ai md))
  && (includeDeprecated env
      || negb (bool_decide (availability md = "deprecated"))) = true
  <-> retained env md.
Proof.
  unfold retained, showAdvanced, includeDeprecated.
  rewrite andb_true_iff, !orb_true_iff, !flag_enabled_spec,
    !negb_true_iff, bool_decide_eq_false.
  done.
Qed.

Section Catalog.
Variable env : Env.

Lemma step_other (acc : gmap string ModelInfo) (md : RaycastRawModelData)
    (k : string) :
  id md <> k -> fetchModels_step env acc md !! k = acc !! k.
Proof.
  intros Hne. unfold fetchModels_step.
  destruct (_ && _); [by rewrite lookup_insert_ne | done].
Qed.

Lemma fold_other (ms : list RaycastRawModelData)
    (acc : gmap string ModelInfo) (k : string) :
  k ∉ map id ms -> foldl (fetchModels_step env) acc ms !! k = acc !! k.
Proof.
  revert acc. induction ms as [|md ms IH]; intros acc Hk; [done |].
  simpl in *. apply not_elem_of_cons in Hk as [Hne Hk].
  rewrite IH by done. by apply step_other.
Qed.

Lemma fold_lookup_origin (ms : list RaycastRawModelData)
    (acc : gmap string ModelInfo) (k : string) (v : ModelInfo) :
  foldl (fetchModels_step env) acc ms !! k = Some v ->
  acc !! k = Some v
  \/ exists md, md ∈ ms /\ id md = k /\ retained env md /\ v = catalog_entry md.
Proof.
  revert acc. induction ms as [|md ms IH]; intros acc Hfold; [by left |].
  simpl in Hfold. destruct (IH _ Hfold) as [Hacc | (md' & Hin & Hrest)].
  - unfold fetchModels_step in Hacc.
    destruct (_ && _) eqn:Hkeep; [| by left].
    destruct (decide (id md = k)) as [Heq | Hne].
    + right. exists md. rewrite Heq, lookup_insert_eq in Hacc.
      injection Hacc as <-.
      split; [by left |]. split; [done |]. split; [by apply keep_spec | done].
    + left. by rewrite lookup_insert_ne in Hacc.
  - right. exists md'. split; [by right | done].
Qed.

Lemma fold_retained (ms : list RaycastRawModelData)
    (acc : gmap string ModelInfo) (md : RaycastRawModelData) :
  NoDup (map id ms) -> md ∈ ms -> retained env md ->
  foldl (fetchModels_step env) acc ms !! id md = Some (catalog_entry md).
Proof.
  revert acc. induction ms as [|md0 ms IH]; intros acc Hnd Hin Hkeep.
  - by apply elem_of_nil in Hin.
  - simpl in *. apply NoDup_cons in Hnd as [Hfresh Hnd].
    apply elem_of_cons in Hin as [-> | Hin]; [| by apply IH].
    rewrite fold_other by done. unfold fetchModels_step.
    rewrite (proj2 (keep_spec env md0) Hkeep). by rewrite lookup_insert_eq.
Qed.

Lemma fold_keeps_keys (ms : list RaycastRawModelData)
    (acc : gmap string ModelInfo) (k : string) :
  is_Some (acc !! k) -> is_Some (foldl (fetchModels_step env) acc ms !! k).
Proof.
  revert acc. induction ms as [|md ms IH]; intros acc Hk; [done |].
  simpl. apply IH. unfold fetchModels_step.
  destruct (_ && _); [| done].
  destruct (decide (id md = k)) as [<- | Hne].
  - by rewrite lookup_insert_eq.
  - by rewrite lookup_insert_ne.
Qed.

Lemma fold_inserts (ms : list RaycastRawModelData)
    (acc : gmap string ModelInfo) (md : RaycastRawModelData) :
  md ∈ ms -> retained env md ->
  is_Some (foldl (fetchModels_step env) acc ms !! id md).
Proof.
  revert acc. induction ms as [|md0 ms IH]; intros acc Hin Hkeep.
  - by apply elem_of_nil in Hin.
  - simpl. apply elem_of_cons in Hin as [-> | Hin]; [| by apply IH].
    apply fold_keeps_keys. unfold fetchModels_step.
    rewrite (proj2 (keep_spec env md0) Hkeep). by rewrite lookup_insert_eq.
Qed.

Lemma same_id_same_model (ms : list RaycastRawModelData)
    (m1 m2 : RaycastRawModelData) :
  NoDup (map id ms) -> m1 ∈ ms -> m2 ∈ ms -> id m1 = id m2 -> m1 = m2.
Proof.
  induction ms as [|md ms IH]; intros Hnd H1 H2 Heq.
  - by apply elem_of_nil in H1.
  - simpl in Hnd. apply NoDup_cons in Hnd as [Hfresh Hnd].
    apply elem_of_cons in H1 as [-> | H1];
      apply elem_of_cons in H2 as [-> | H2]; [done | | | by apply IH].
    + destruct Hfresh. rewrite Heq. by apply (list_elem_of_fmap_2 id).
    + destruct Hfresh. rewrite <- Heq. by apply (list_elem_of_fmap_2 id).
Qed.

End Catalog.

Lemma fetchModels_ok (w : World) (env : Env) (e : Effects) (st : nat)
    (ms : list RaycastRawModelData) :
  models_endpoint w = ModelsHttp st (Some ms) -> ok st = true ->
  fetchModels w env e
  = (foldl (fetchModels_step env) ∅ ms, after_models_fetch e).
Proof.
  intros Hw Hok. unfold fetchModels. run_effects.
  by rewrite Hw, Hok.
Qed.

Lemma fetchModels_effects (w : World) (env : Env) (e : Effects) :
  (fetchModels w env e).2 = after_models_fetch e.
Proof.
  unfold fetchModels. run_effects.
  destruct (models_endpoint w) as [|st [ms|]]; [done | |];
    by destruct (negb (ok st)).
Qed.

(** C7. After a successful fetch, an id is a key of the resolved catalog
    iff some fetched model with that id passes
    (showPremium or the model does not require premium) and
    (includeDeprecated or the model is not deprecated), each gate being
    on unless its variable is set to "false" in any letter case; and
    when the fetched ids are unique, a fetched model is in the catalog,
    under its id and with its provider and internal name, iff it passes. *)
Theorem catalog_retains_by_flags :
  forall (w : World) (env : Env) (e : Effects) (st : nat)
         (ms : list RaycastRawModelData),
    models_endpoint w = ModelsHttp st (Some ms) ->
    ok st = true ->
    (forall k : string,
        k ∈ dom (fetchModels w env e).1
        <-> exists md, md ∈ ms /\ id md = k /\ retained env md)
    /\ (NoDup (map id ms) ->
        forall md : RaycastRawModelData,
          md ∈ ms ->
          ((fetchModels w env e).1 !! id md = Some (catalog_entry md)
           <-> retained env md)).
Proof.
  intros w env e st ms Hw Hok.
  rewrite (fetchModels_ok _ _ _ _ _ Hw Hok). cbn [fst]. split.
  - intros k. rewrite elem_of_dom. split.
    + intros [v Hv]. apply fold_lookup_origin in Hv
        as [Hempty | (md & Hin & Hid & Hkeep & _)].
      * by rewrite lookup_empty in Hempty.
      * by exists md.
    + intros (md & Hin & <- & Hkeep). by apply fold_inserts.
  - intros Hnd md Hin. split.
    + intros Hv. apply fold_lookup_origin in Hv
        as [Hempty | (md' & Hin' & Hid & Hkeep & _)].
      * by rewrite lookup_empty in Hempty.
      * by rewrite <- (same_id_same_model ms md' md Hnd Hin' Hin Hid).
    + by apply fold_retained.
Qed.

Lemma catalog_retains_by_flags_witness :
  models_endpoint (demo_world (ChatNetworkError ""))
    = ModelsHttp 200 (Some demo_models)
  /\ ok 200 = true
  /\ NoDup (map id demo_models)
  /\ {| id := "anthropic-claude-opus"; raw_model := "claude-opus";
        name := "Claude Opus"; raw_provider := "anthropic";
        requires_better_ai := true; availability := "public" |} ∈ demo_models
  /\ ((fetchModels (demo_world (ChatNetworkError "")) demo_env no_effects).1
        !! "anthropic-claude-opus"
      = Some {| provider := "anthropic"; model := "claude-opus" |}
      <-> retained demo_env
            {| id := "anthropic-claude-opus"; raw_model := "claude-opus";
               name := "Claude Opus"; raw_provider := "anthropic";
               requires_better_ai := true; availability := "public" |}).
Proof.
  assert (Hnd : NoDup (map id demo_models)).
  { apply (bool_decide_unpack (NoDup (map id demo_models))).
    vm_compute. exact I. }
  assert (Hin : {| id := "anthropic-claude-opus"; raw_model := "claude-opus";
                   name := "Claude Opus"; raw_provider := "anthropic";
                   requires_better_ai := true; availability := "public" |}
                ∈ demo_models).
  { right. left. }
  split; [reflexivity |]. split; [reflexivity |].
  split; [exact Hnd |]. split; [exact Hin |].
  exact (proj2 (catalog_retains_by_flags (demo_world (ChatNetworkError ""))
                  demo_env no_effects 200 demo_models eq_refl eq_refl)
           Hnd _ Hin).
Defined.

(** ** The request handler *)

Lemma fetchModels_with_chat_answer (w : World) (answer : ChatFetch)
    (env : Env) (e : Effects) :
  fetchModels (with_chat_answer w answer) env e = fetchModels w env e.
Proof. reflexivity. Qed.

Lemma size_zero_empty (models : gmap string ModelInfo) :
  (size models =? 0) = true <-> models = ∅.
Proof. rewrite Nat.eqb_eq. apply map_size_empty_iff. Qed.

(** The handler, once the request has messages: the catalog is fetched
    and decides what follows. *)
Lemma handle_with_messages `{JP : JsonParse} (w : World)
    (ask : OpenAIChatRequest) (env : Env)
    (e : Effects) (msg : OpenAIMessage) (msgs : list OpenAIMessage) :
  oa_messages ask = Some (msg :: msgs) ->
  handleChatCompletions w (JsonBody ask) env e
  = let models := (fetchModels w env e).1 in
    if size models =? 0 then
      (Resolved
         (errorResponse "No models available. Check server configuration."
            500 "server_error"), after_models_fetch e)
    else match models !! requested_model ask with
         | None =>
             (Resolved
                (errorResponse
                   ("Model " +:+ quoted (requested_model ask)
                      +:+ " not available. Using default: "
                      +:+ DEFAULT_MODEL_ID)
                   400 "invalid_request_error"), after_models_fetch e)
         | Some info =>
             let rq := vendor_request ask (msg :: msgs) info
                         (uuid_at w (uuid_calls e)) in
             let e' := after_chat_request e rq in
             match chat_endpoint w rq with
             | ChatNetworkError err =>
                 (Resolved
                    (errorResponse ("Chat completion failed: " +:+ err)
                       500 "relay_error"), e')
             | ChatHttp st c_body =>
                 if negb (ok st) then
                   (Resolved
                      (errorResponse
                         ("Raycast API error (" +:+ pretty st +:+ ")")
                         502 "bad_gateway"), e')
                 else if default false (oa_stream ask)
                 then (Resolved
                         (handleStreamingResponse w c_body
                            (requested_model ask) e').1,
                       (handleStreamingResponse w c_body
                          (requested_model ask) e').2)
                 else (Resolved
                         (handleNonStreamingResponse w c_body
                            (requested_model ask) e').1,
                       (handleNonStreamingResponse w c_body
                          (requested_model ask) e').2)
             | ChatHttpBroken st delivered err =>
                 if negb (ok st) then
                   (Resolved
                      (errorResponse ("Chat completion failed: " +:+ err)
                         500 "relay_error"), e')
                 else if default false (oa_stream ask)
                 then (Resolved
                         (handleStreamingResponse_failing w delivered err
                            (requested_model ask) e').1,
                       (handleStreamingResponse_failing w delivered err
                          (requested_model ask) e').2)
                 else (Rejected err, e')
             end
         end.
Proof.
  intros Hmsgs. unfold handleChatCompletions. rewrite Hmsgs.
  change (length (default [] (Some (msg :: msgs))) =? 0) with false.
  cbv iota. unfold bind at 1.
  pose proof (fetchModels_effects w env e) as Heff.
  destruct (fetchModels w env e) as [models e'] eqn:Hfetch.
  simpl in Heff. subst e'. cbn [fst].
  destruct (size models =? 0); [done |].
  fold (requested_model ask).
  destruct (models !! requested_model ask) as [info|] eqn:Hlook.
  - replace (bool_decide (is_Some (Some info))) with true
      by (symmetry; by apply bool_decide_eq_true_2).
    cbn [negb]. unfold getProviderInfo. rewrite Hlook.
    cbv zeta.
    unfold bind at 1. unfold uuidv4 at 1.
    unfold bind at 1. unfold fetch_chat at 1.
    unfold bind at 1. unfold record_call at 1. unfold ret at 1.
    cbn [uuid_calls clock_reads sent].
    unfold after_chat_request, after_models_fetch, vendor_request.
    cbn [uuid_calls clock_reads sent default].
    rewrite <- !app_assoc. cbn [app].
    change (Datatypes.id (msg :: msgs)) with (msg :: msgs).
    destruct (chat_endpoint w _) as [err | st c_body | st delivered err];
      [done | |].
    + destruct (negb (ok st)); [done |].
      destruct (default false (oa_stream ask)); unfold bind, ret.
      * by destruct (handleStreamingResponse w c_body _ _).
      * by destruct (handleNonStreamingResponse w c_body _ _).
    + destruct (negb (ok st)); [done |].
      destruct (default false (oa_stream ask)); [| done].
      unfold bind, ret.
      by destruct (handleStreamingResponse_failing w delivered err _ _).
  - replace (bool_decide (is_Some (@None ModelInfo))) with false; [done |].
    symmetry. apply bool_decide_eq_false_2. by intros [? ?].
Qed.

(** C8. A request with messages whose model id is not in a non-empty
    resolved catalog is answered with HTTP 400, type
    [invalid_request_error] and a message that ends in the default model
    id; the only vendor call made is the catalog fetch, so the fallback
    entry that the resolver returns for the unknown id reaches no vendor
    request. *)
Theorem unknown_model_is_rejected :
  forall (JP : JsonParse) (w : World) (env : Env) (ask : OpenAIChatRequest)
         (e : Effects) (msgs : list OpenAIMessage),
    oa_messages ask = Some msgs ->
    msgs <> [] ->
    (fetchModels w env e).1 <> ∅ ->
    (fetchModels w env e).1 !! default DEFAULT_MODEL_ID (oa_model ask) = None ->
    (handleChatCompletions w (JsonBody ask) env e).1
    = Resolved
        {| status := 400;
           body :=
             ErrorBody
               ("Model " +:+ quoted (default DEFAULT_MODEL_ID (oa_model ask))
                  +:+ " not available. Using default: "
                  +:+ "openai-gpt-4o-mini")
               "invalid_request_error" |}
    /\ uuid_calls (handleChatCompletions w (JsonBody ask) env e).2
       = uuid_calls e
    /\ clock_reads (handleChatCompletions w (JsonBody ask) env e).2
       = clock_reads e
    /\ sent (handleChatCompletions w (JsonBody ask) env e).2
       = sent e ++ [GetModels]
    /\ getProviderInfo (default DEFAULT_MODEL_ID (oa_model ask))
         (fetchModels w env e).1
       = {| provider := "openai"; model := "gpt-4o-mini" |}.
Proof.
  intros JP w env ask e msgs Hmsgs Hne Hcat Hmiss.
  destruct msgs as [|msg msgs]; [done |].
  rewrite (handle_with_messages w ask env e msg msgs Hmsgs). cbv zeta.
  destruct (size (fetchModels w env e).1 =? 0) eqn:Hsize.
  { by apply size_zero_empty in Hsize. }
  unfold requested_model. rewrite Hmiss.
  repeat split; try done.
  unfold getProviderInfo. by rewrite Hmiss.
Qed.

Lemma unknown_model_is_rejected_witness :
  (@handleChatCompletions vendor_event_reader
     (demo_world (ChatHttp 200 (Some scenario_B)))
     (demo_request "anthropic-claude-opus" true) demo_env no_effects).1
  = Resolved
      {| status := 400;
         body :=
           ErrorBody
             ("Model " +:+ quoted "anthropic-claude-opus"
                +:+ " not available. Using default: openai-gpt-4o-mini")
             "invalid_request_error" |}
  /\ sent (@handleChatCompletions vendor_event_reader
             (demo_world (ChatHttp 200 (Some scenario_B)))
             (demo_request "anthropic-claude-opus" true) demo_env
             no_effects).2
     = [GetModels].
Proof.
  unfold demo_request.
  destruct (unknown_model_is_rejected vendor_event_reader
              (demo_world (ChatHttp 200 (Some scenario_B))) demo_env
              {| oa_messages :=
                   Some [{| role := "system"; content := "Be terse" |};
                         {| role := "user"; content := "hi" |}];
                 oa_model := Some "anthropic-claude-opus";
                 oa_temperature := None;
                 oa_stream := Some true |}
              no_effects
              [{| role := "system"; content := "Be terse" |};
               {| role := "user"; content := "hi" |}]
              eq_refl
              ltac:(discriminate)
              ltac:(intros H;
                    apply (f_equal (fun c => c !! "openai-gpt-4o-mini")) in H;
                    vm_compute in H; discriminate)
              ltac:(vm_compute; reflexivity))
    as (Hanswer & _ & _ & Hsent & _).
  split; [exact Hanswer | exact Hsent].
Defined.

(** C9 (counterexample). The vendor answers 500 and the transport of its
    body fails while the relay reads it: the caller gets HTTP 500 of
    type [relay_error], not 502 [bad_gateway]. *)
Lemma unreadable_error_body_is_relay_error :
  (@handleChatCompletions vendor_event_reader
     (demo_world (ChatHttpBroken 500 ["{ internal vendor"]
                    "Network connection lost."))
     (demo_request "openai-gpt-4o-mini" false) demo_env no_effects).1
  = Resolved
      {| status := 500;
         body := ErrorBody "Chat completion failed: Network connection lost."
                   "relay_error" |}
  /\ (@handleChatCompletions vendor_event_reader
        (demo_world (ChatHttpBroken 500 ["{ internal vendor"]
                       "Network connection lost."))
        (demo_request "openai-gpt-4o-mini" false) demo_env no_effects).1
     <> Resolved
          {| status := 502;
             body := ErrorBody "Raycast API error (500)" "bad_gateway" |}.
Proof. split; [by vm_compute | vm_compute; discriminate]. Qed.

(** C9 (as amended). When the vendor's chat endpoint answers with a
    status outside 200..299 and its body can be read to the end, the
    caller gets HTTP 502 of type [bad_gateway] with a message that names
    the status only; the clock has not been read, so no chunk and no
    completion was built; and the whole outcome is the same whatever
    body the vendor sent. When the read of that body fails, the caller
    gets HTTP 500 of type [relay_error] with the message of the failure,
    again whatever part of the body had arrived. *)
Theorem vendor_failure_is_bad_gateway :
  forall (JP : JsonParse) (w : World) (env : Env) (ask : OpenAIChatRequest)
         (e : Effects) (msgs : list OpenAIMessage) (info : ModelInfo)
         (st : nat),
    oa_messages ask = Some msgs ->
    msgs <> [] ->
    (fetchModels w env e).1 !! default DEFAULT_MODEL_ID (oa_model ask)
      = Some info ->
    ok st = false ->
    (forall b1 b2 : option (list string),
        (handleChatCompletions (with_chat_answer w (ChatHttp st b1))
           (JsonBody ask) env e).1
        = Resolved
            {| status := 502;
               body := ErrorBody ("Raycast API error (" +:+ pretty st +:+ ")")
                         "bad_gateway" |}
        /\ clock_reads
             (handleChatCompletions (with_chat_answer w (ChatHttp st b1))
                (JsonBody ask) env e).2 = clock_reads e
        /\ handleChatCompletions (with_chat_answer w (ChatHttp st b1))
             (JsonBody ask) env e
           = handleChatCompletions (with_chat_answer w (ChatHttp st b2))
               (JsonBody ask) env e)
    /\ (forall (d1 d2 : list string) (err : string),
          (handleChatCompletions
             (with_chat_answer w (ChatHttpBroken st d1 err))
             (JsonBody ask) env e).1
          = Resolved
              {| status := 500;
                 body := ErrorBody ("Chat completion failed: " +:+ err)
                           "relay_error" |}
          /\ clock_reads
               (handleChatCompletions
                  (with_chat_answer w (ChatHttpBroken st d1 err))
                  (JsonBody ask) env e).2 = clock_reads e
          /\ handleChatCompletions
               (with_chat_answer w (ChatHttpBroken st d1 err))
               (JsonBody ask) env e
             = handleChatCompletions
                 (with_chat_answer w (ChatHttpBroken st d2 err))
                 (JsonBody ask) env e).
Proof.
  intros JP w env ask e msgs info st Hmsgs Hne Hhit Hfail.
  destruct msgs as [|msg msgs]; [done |].
  assert (Hsize : (size (fetchModels w env e).1 =? 0) = false).
  { apply not_true_is_false. intros Hz. apply size_zero_empty in Hz.
    by rewrite Hz, lookup_empty in Hhit. }
  split.
  - intros b1 b2.
    assert (Hone : forall b,
      handleChatCompletions (with_chat_answer w (ChatHttp st b))
        (JsonBody ask) env e
      = (Resolved
           (errorResponse ("Raycast API error (" +:+ pretty st +:+ ")")
              502 "bad_gateway"),
         after_chat_request e
           (vendor_request ask (msg :: msgs) info
              (uuid_at w (uuid_calls e))))).
    { intros b.
      rewrite (handle_with_messages _ ask env e msg msgs Hmsgs). cbv zeta.
      rewrite fetchModels_with_chat_answer, Hsize.
      unfold requested_model. rewrite Hhit.
      cbn [with_chat_answer chat_endpoint uuid_at]. by rewrite Hfail. }
    rewrite !Hone. done.
  - intros d1 d2 err.
    assert (Hone : forall d,
      handleChatCompletions (with_chat_answer w (ChatHttpBroken st d err))
        (JsonBody ask) env e
      = (Resolved
           (errorResponse ("Chat completion failed: " +:+ err)
              500 "relay_error"),
         after_chat_request e
           (vendor_request ask (msg :: msgs) info
              (uuid_at w (uuid_calls e))))).
    { intros d.
      rewrite (handle_with_messages _ ask env e msg msgs Hmsgs). cbv zeta.
      rewrite fetchModels_with_chat_answer, Hsize.
      unfold requested_model. rewrite Hhit.
      cbn [with_chat_answer chat_endpoint uuid_at]. by rewrite Hfail. }
    rewrite !Hone. done.
Qed.

Lemma vendor_failure_is_bad_gateway_witness :
  ok 500 = false
  /\ (@handleChatCompletions vendor_event_reader
        (with_chat_answer (demo_world (ChatNetworkError ""))
           (ChatHttp 500 (Some ["{ internal vendor failure }"])))
        (demo_request "openai-gpt-4o-mini" true) demo_env no_effects).1
     = Resolved
         {| status := 502;
            body := ErrorBody "Raycast API error (500)" "bad_gateway" |}.
Proof.
  split; [reflexivity |].
  exact (proj1 (proj1 (vendor_failure_is_bad_gateway vendor_event_reader
                  (demo_world (ChatNetworkError "")) demo_env
                  {| oa_messages :=
                       Some [{| role := "system"; content := "Be terse" |};
                             {| role := "user"; content := "hi" |}];
                     oa_model := Some "openai-gpt-4o-mini";
                     oa_temperature := None;
                     oa_stream := Some true |}
                  no_effects
                  [{| role := "system"; content := "Be terse" |};
                   {| role := "user"; content := "hi" |}]
                  {| provider := "openai"; model := "gpt-4o-mini" |}
                  500
                  eq_refl
                  ltac:(discriminate)
                  ltac:(vm_compute; reflexivity)
                  eq_refl)
                (Some ["{ internal vendor failure }"]) None)).
Defined.

(** * Further properties *)

(** ** The request translator, continued *)

Lemma convertMessages_messages (msgs : list OpenAIMessage) :
  raycastMessages (convertMessages msgs)
  = map to_vendor
      (filter forwarded
         (match msgs with
          | first :: rest =>
              if bool_decide (role first = "system") then rest else msgs
          | [] => []
          end)).
Proof.
  destruct msgs as [|first rest]; [done |].
  unfold convertMessages. simpl. rewrite forEach_after_first.
  unfold convertMessages_step. rewrite andb_true_r, forwarded_bool.
  case_bool_decide as Hsys; simpl; [done |].
  rewrite filter_cons.
  destruct (decide (forwarded first)) as [H|H].
  - by rewrite (bool_decide_eq_true_2 _ H).
  - by rewrite (bool_decide_eq_false_2 _ H).
Qed.

(** X5. Whatever the incoming roles, every message handed to the vendor
    is authored by "user" or "assistant" (so never by "system"), and the
    forwarded (author, text) pairs are a subsequence of the incoming
    (role, content) pairs: nothing is invented, duplicated or
    reordered. *)
Theorem convertMessages_forwards_a_subsequence :
  forall msgs : list OpenAIMessage,
    Forall (fun rm => author rm = "user" \/ author rm = "assistant")
      (raycastMessages (convertMessages msgs))
    /\ map relayed (raycastMessages (convertMessages msgs))
       `sublist_of` map said msgs.
Proof.
  intros msgs. rewrite convertMessages_messages. split.
  - apply Forall_forall. intros rm Hrm.
    apply list_elem_of_fmap in Hrm as (msg & -> & Hmsg).
    by apply list_elem_of_filter in Hmsg as [Hfw _].
  - rewrite <- list_fmap_compose.
    change (relayed ∘ to_vendor) with said.
    apply fmap_sublist. etrans; [apply sublist_filter |].
    destruct msgs as [|first rest]; [done |].
    case_bool_decide; [by apply sublist_cons | done].
Qed.

(** ** The streaming loop, continued *)

Section StreamingMore.
Context `{JP : JsonParse}.
Variable w : World.
Variable m : string.

Lemma chunk_at_is_chunk (e : Effects) (d : RaycastSSEData) :
  is_chunk_for m (DataFrame (chunk_at w e m d)).
Proof. repeat split. by eexists. Qed.

Lemma feed_chunks (ls : list string) (p : Pump) (e : Effects) :
  Forall (is_chunk_for m) (written p) ->
  Forall (is_chunk_for m) (written (feed w m ls p e).1).
Proof.
  revert p e. induction ls as [|raw ls IH]; intros p e Hp; [done |].
  simpl. unfold bind.
  destruct (stream_event raw) as [d|] eqn:Ev.
  - rewrite (process_line_event w m _ _ _ _ Ev). apply IH. simpl.
    apply Forall_app. split; [done |].
    constructor; [apply chunk_at_is_chunk | constructor].
  - destruct (process_line_no_event w m raw p e Ev) as [-> | ->]; by apply IH.
Qed.

Lemma pump_chunks (chunks : list string) (p : Pump) (e : Effects) :
  Forall (is_chunk_for m) (written p) ->
  Forall (is_chunk_for m) (written (pump w chunks m p e).1).
Proof.
  revert p e. induction chunks as [|value rest IH]; intros p e Hp.
  - simpl. by destruct (streamFinished p).
  - destruct (streamFinished p) eqn:Hf.
    + by rewrite pump_finished.
    + rewrite pump_cons by done. by apply IH, feed_chunks.
Qed.

(** Once a finish event has been seen, what the transport delivers
    later is never read. *)
Lemma pump_after_finish (chunks rest : list string) (p : Pump) (e : Effects) :
  no_newline (buffer p) ->
  existsb has_finish
    (omap stream_event
       (complete_lines (buffer p +:+ foldr String.append "" chunks))) = true ->
  pump w (chunks ++ rest) m p e = pump w chunks m p e.
Proof.
  revert p e. induction chunks as [|value chunks IH]; intros p e Hnl Hfin.
  - simpl in Hfin.
    by rewrite app_empty_r, (complete_lines_no_newline _ Hnl) in Hfin.
  - destruct (streamFinished p) eqn:Hf.
    + by rewrite !pump_finished.
    + rewrite <- app_comm_cons, !pump_cons by done.
      simpl in Hfin.
      rewrite <- app_assoc_str, (complete_lines_app (buffer p +:+ value)),
        omap_app, existsb_app in Hfin.
      destruct (feed_summary w m (complete_lines (buffer p +:+ value))
                  (with_buffer (pending (buffer p +:+ value)) p) e)
        as (Hb & Hflag & _).
      simpl in Hb, Hflag. rewrite Hf, orb_false_r in Hflag.
      destruct (existsb has_finish
                  (omap stream_event (complete_lines (buffer p +:+ value))))
        eqn:Hhere.
      * by rewrite !pump_finished.
      * apply IH; rewrite Hb; [apply pending_has_no_newline | done].
Qed.

Lemma pump_failing_cons (value : string) (rest : list string) (p : Pump)
    (e : Effects) :
  streamFinished p = false ->
  pump_failing w (value :: rest) m p e
  = pump_failing w rest m
      (feed w m (complete_lines (buffer p +:+ value))
         (with_buffer (pending (buffer p +:+ value)) p) e).1
      (feed w m (complete_lines (buffer p +:+ value))
         (with_buffer (pending (buffer p +:+ value)) p) e).2.
Proof.
  intros H. simpl. rewrite H. unfold bind.
  rewrite drain_feed by done. unfold with_buffer. simpl. rewrite H.
  by destruct (feed w m _ _ e).
Qed.

(** A body whose reader fails is pumped like the chunks it delivered;
    the failing [read()] is reached unless a finish event among the
    complete lines delivered has ended the loop. *)
Lemma pump_failing_pump (delivered : list string) (p : Pump) (e : Effects) :
  no_newline (buffer p) ->
  written (pump_failing w delivered m p e).1.1
  = written (pump w delivered m p e).1
  /\ (pump_failing w delivered m p e).2 = (pump w delivered m p e).2
  /\ (pump_failing w delivered m p e).1.2
     = negb (streamFinished p
             || existsb has_finish
                  (omap stream_event
                     (complete_lines
                        (buffer p +:+ foldr String.append "" delivered)))).
Proof.
  revert p e. induction delivered as [|value rest IH]; intros p e Hnl.
  - simpl. destruct (streamFinished p); [done |].
    by rewrite app_empty_r, (complete_lines_no_newline _ Hnl).
  - destruct (streamFinished p) eqn:Hf.
    + rewrite pump_finished by done. simpl. by rewrite Hf.
    + rewrite pump_failing_cons, pump_cons by done.
      destruct (feed_summary w m (complete_lines (buffer p +:+ value))
                  (with_buffer (pending (buffer p +:+ value)) p) e)
        as (Hb & Hflag & _).
      simpl in Hb, Hflag. rewrite Hf, orb_false_r in Hflag.
      destruct (IH (feed w m (complete_lines (buffer p +:+ value))
                      (with_buffer (pending (buffer p +:+ value)) p) e).1
                   (feed w m (complete_lines (buffer p +:+ value))
                      (with_buffer (pending (buffer p +:+ value)) p) e).2)
        as (Hw & He & Hfl).
      { rewrite Hb. apply pending_has_no_newline. }
      split; [done |]. split; [done |].
      rewrite Hfl, Hflag, Hb. simpl.
      by rewrite <- app_assoc_str,
        (complete_lines_app (buffer p +:+ value)), omap_app, existsb_app.
Qed.

Lemma through_finish_all (evs : list RaycastSSEData) :
  existsb has_finish (removelast evs) = false -> through_finish evs = evs.
Proof.
  induction evs as [|d evs IH]; [done |].
  destruct evs as [|d' evs'].
  - simpl. by destruct (has_finish d).
  - change (removelast (d :: d' :: evs')) with (d :: removelast (d' :: evs')).
    change (through_finish (d :: d' :: evs'))
      with (if has_finish d then [d] else d :: through_finish (d' :: evs')).
    change (existsb has_finish (d :: removelast (d' :: evs')))
      with (has_finish d || existsb has_finish (removelast (d' :: evs'))).
    destruct (has_finish d); [done |]. intros H. f_equal. by apply IH.
Qed.

Lemma removelast_app_nonempty {A} (l1 l2 : list A) :
  l2 <> [] -> removelast (l1 ++ l2) = l1 ++ removelast l2.
Proof.
  intros H. induction l1 as [|x l1 IH]; [done |].
  simpl. rewrite IH. destruct (l1 ++ l2) eqn:E; [| done].
  apply app_eq_nil in E as [_ ?]. done.
Qed.

Lemma existsb_false_forallb {A} (f : A -> bool) (l : list A) :
  existsb f l = false -> forallb (fun x => negb (f x)) l = true.
Proof.
  induction l as [|x l IH]; simpl; [done |].
  destruct (f x); simpl; [done | exact IH].
Qed.

(** A stream whose only finish event, if any, is its last event never
    has an event after a finish event in one transport chunk, however
    it is cut. *)
Lemma finish_last_ends_chunk (chunks : list string) (buf : string) :
  no_newline buf ->
  existsb has_finish
    (removelast
       (omap stream_event
          (complete_lines (buf +:+ foldr String.append "" chunks)))) = false ->
  finish_ends_chunk buf chunks = true.
Proof.
  revert buf. induction chunks as [|value chunks IH]; intros buf Hnl Hlast;
    [done |].
  simpl in Hlast |- *.
  rewrite <- app_assoc_str, (complete_lines_app (buf +:+ value)), omap_app
    in Hlast.
  destruct (omap stream_event
              (complete_lines
                 (pending (buf +:+ value) +:+ foldr String.append "" chunks)))
    as [|d2 evs2] eqn:E2.
  - rewrite app_nil_r in Hlast.
    destruct (existsb has_finish
                (omap stream_event (complete_lines (buf +:+ value))))
      eqn:Hhere.
    + by apply existsb_false_forallb.
    + apply IH; [apply pending_has_no_newline |]. by rewrite E2.
  - rewrite removelast_app_nonempty, existsb_app in Hlast by done.
    apply orb_false_iff in Hlast as [Hhere Hrest].
    rewrite Hhere. apply IH; [apply pending_has_no_newline |].
    by rewrite E2.
Qed.

End StreamingMore.

(** X6. A streamed answer has status 200. When the vendor's body is
    read to its end, the frames are a run of chunk frames, each with
    the fixed [object], the requested model id and a single choice of
    index 0, closed by exactly one [data: [DONE]] in last place; without
    a vendor body nothing is written at all, not even the sentinel.
    When reading the body fails after some chunks have been delivered,
    the chunk frames are those of the delivered chunks; [data: [DONE]]
    closes them only if a finish-reason event among the complete lines
    delivered had ended the loop before the failing read, and otherwise
    the stream is aborted with the error of the read and carries no
    [data: [DONE]]. *)
Theorem streamed_frames_shape :
  forall (JP : JsonParse) (w : World) (m : string) (e : Effects),
    (forall chunks : list string,
        exists fs,
          (stream_frames w (Some chunks) m e).1 = fs ++ [DoneFrame]
          /\ Forall (is_chunk_for m) fs
          /\ (handleStreamingResponse w (Some chunks) m e).1
             = {| status := 200; body := StreamBody (fs ++ [DoneFrame]) |})
    /\ (stream_frames w None m e).1 = []
    /\ (handleStreamingResponse w None m e).1
       = {| status := 200; body := StreamBody [] |}
    /\ (forall (delivered : list string) (err : string),
          exists fs,
            (stream_frames w (Some delivered) m e).1 = fs ++ [DoneFrame]
            /\ Forall (is_chunk_for m) fs
            /\ (handleStreamingResponse_failing w delivered err m e).1
               = {| status := 200;
                    body :=
                      if existsb has_finish
                           (omap stream_event
                              (complete_lines
                                 (foldr String.append "" delivered)))
                      then StreamBody (fs ++ [DoneFrame])
                      else BrokenStreamBody fs err |}
            /\ (handleStreamingResponse_failing w delivered err m e).2
               = (stream_frames w (Some delivered) m e).2).
Proof.
  intros JP w m e. split; [| split; [done | split; [done |]]].
  - intros chunks. unfold handleStreamingResponse, bind, ret.
    rewrite stream_frames_some. cbn [fst]. eexists.
    split; [done |]. split; [by apply pump_chunks | done].
  - intros delivered err. rewrite stream_frames_some. cbn [fst snd].
    exists (written (pump w delivered m fresh_pump e).1).
    split; [done |]. split; [by apply pump_chunks |].
    destruct (pump_failing_pump w m delivered fresh_pump e)
      as (Hw & He & Hfl); [done |].
    cbn [fresh_pump streamFinished buffer orb] in Hfl.
    rewrite app_empty_l in Hfl.
    unfold handleStreamingResponse_failing, bind, ret.
    fold fresh_pump.
    destruct (pump_failing w delivered m fresh_pump e) as [[p fl] e'].
    cbn [fst snd] in *. subst fl e'. rewrite Hw.
    by destruct (existsb has_finish _).
Qed.

Lemma aborted_stream_has_no_done_marker :
  (@handleStreamingResponse_failing vendor_event_reader
     (demo_world (ChatNetworkError ""))
     [data_line "text" "Hel"; "data: {"] "Network connection lost."
     "openai-gpt-4o-mini" no_effects).1
  = {| status := 200;
       body :=
         BrokenStreamBody
           [DataFrame
              {| chunk_id := "chatcmpl-uuid-0";
                 chunk_object := "chat.completion.chunk";
                 chunk_created := 1700000000;
                 chunk_model := "openai-gpt-4o-mini";
                 chunk_choices :=
                   [{| cc_index := 0;
                       delta := {| delta_content := "Hel" |};
                       cc_finish_reason := None |}] |}]
           "Network connection lost." |}.
Proof. vm_compute. reflexivity. Qed.

(** X7. Transport chunks delivered after one in which a finish-reason
    event was completed are not read: they add no frame and no draw,
    whatever they hold. *)
Theorem finish_stops_later_chunks :
  forall (JP : JsonParse) (w : World) (m : string)
         (chunks rest : list string) (e : Effects),
    existsb has_finish
      (omap stream_event
         (complete_lines (foldr String.append "" chunks))) = true ->
    stream_frames w (Some (chunks ++ rest)) m e
    = stream_frames w (Some chunks) m e.
Proof.
  intros JP w m chunks rest e Hfin. rewrite !stream_frames_some.
  by rewrite (pump_after_finish w m chunks rest fresh_pump e).
Qed.

Lemma finish_stops_later_chunks_witness :
  @stream_frames vendor_event_reader (demo_world (ChatNetworkError ""))
    (Some (scenario_B ++ [data_line "text" "late"; data_line "text" "later"]))
    "openai-gpt-4o-mini" no_effects
  = @stream_frames vendor_event_reader (demo_world (ChatNetworkError ""))
      (Some scenario_B) "openai-gpt-4o-mini" no_effects.
Proof.
  apply (finish_stops_later_chunks vendor_event_reader).
  vm_compute. reflexivity.
Defined.

(** X8. When no event but the last of the vendor stream carries a finish
    reason, the streamed deltas and finish reasons do not depend on how
    the transport cuts the bytes into chunks. *)
Theorem chunking_invariant_when_finish_is_last :
  forall (JP : JsonParse) (w : World) (m : string)
         (chunks1 chunks2 : list string) (e1 e2 : Effects),
    foldr String.append "" chunks1 = foldr String.append "" chunks2 ->
    existsb has_finish
      (removelast
         (omap stream_event
            (complete_lines (foldr String.append "" chunks1)))) = false ->
    map frame_choices (stream_frames w (Some chunks1) m e1).1
    = map frame_choices (stream_frames w (Some chunks2) m e2).1.
Proof.
  intros JP w m chunks1 chunks2 e1 e2 Hsame Hlast.
  apply chunking_invariant_when_finish_ends_chunk; [done | |].
  - by apply finish_last_ends_chunk.
  - apply finish_last_ends_chunk; [done |]. by rewrite app_empty_l, <- Hsame.
Qed.

Lemma chunking_invariant_when_finish_is_last_witness :
  map frame_choices
    (@stream_frames vendor_event_reader (demo_world (ChatNetworkError ""))
       (Some scenario_B) "openai-gpt-4o-mini" no_effects).1
  = map frame_choices
      (@stream_frames vendor_event_reader (demo_world (ChatNetworkError ""))
         (Some ["data: {"; quoted "text" +:+ ":" +:+ quoted "Hel" +:+ "}"
                             +:+ String newline "" +:+ data_line "text" "lo"
                             +:+ "data: {" +:+ quoted "finish_reason";
                ":" +:+ quoted "stop" +:+ "}" +:+ String newline ""])
         "openai-gpt-4o-mini" no_effects).1.
Proof.
  apply (chunking_invariant_when_finish_is_last vendor_event_reader).
  - vm_compute. reflexivity.
  - vm_compute. reflexivity.
Defined.

(** ** The two modes side by side *)

Section Modes.
Context `{JP : JsonParse}.

Lemma stream_event_of_trimmed_line (l : string) :
  (forall d, JSON_parse "[DONE]" <> JsonData d) ->
  JS.trim l = l -> stream_event l = sse_event l.
Proof.
  intros Hdone Htrim. unfold stream_event, sse_event. rewrite Htrim.
  destruct (JS.startsWith l "data:"); [| done].
  case_bool_decide as Hd; [| done]. rewrite Hd.
  destruct (JSON_parse "[DONE]") as [| |d] eqn:E; [done | done |].
  by destruct (Hdone d).
Qed.

Lemma omap_events_of_trimmed_lines (ls : list string) :
  (forall d, JSON_parse "[DONE]" <> JsonData d) ->
  Forall (fun l => JS.trim l = l) ls ->
  omap stream_event ls = omap sse_event ls.
Proof.
  intros Hdone. induction 1 as [|l ls Hl _ IH]; [done |].
  change (l :: ls) with ([l] ++ ls). rewrite !omap_app, IH. f_equal.
  simpl. by rewrite (stream_event_of_trimmed_line l Hdone Hl).
Qed.

Lemma omap_frame_choices (evs : list RaycastSSEData) (fs : list Frame) :
  map frame_choices fs
  = map (fun d => Some (expected_choices d)) evs ++ [None] ->
  omap frame_choices fs = map expected_choices evs.
Proof.
  revert fs. induction evs as [|d evs IH]; intros fs Hfs.
  - destruct fs as [|f [|f' fs']]; [done | | done].
    simpl in Hfs. injection Hfs as Hf. simpl. by rewrite Hf.
  - destruct fs as [|f fs]; [done |].
    simpl in Hfs. injection Hfs as Hf Hrest.
    simpl. rewrite Hf. f_equal. by apply IH.
Qed.

Lemma text_of_expected_choices (evs : list RaycastSSEData) :
  foldr String.append ""
    (map delta_content (map delta (concat (map expected_choices evs))))
  = foldr String.append "" (map (fun d => default "" (sse_text d)) evs).
Proof. induction evs as [|d evs IH]; simpl; [done | by rewrite IH]. Qed.

Lemma split_lines_pending (s : string) :
  JS.split s newline = complete_lines s ++ [pending s].
Proof. apply (app_removelast_last ""), split_nonempty. Qed.

End Modes.

(** X9. For a vendor stream whose lines all end in a line feed and are
    free of surrounding white space, and in which no event but the last
    carries a finish reason, the text a client assembles from the
    streamed deltas is the content of the non-streaming completion,
    however the transport cuts the stream (given that the payload
    [[DONE]] is not valid JSON data). *)
Theorem modes_agree_on_terminated_streams :
  forall (JP : JsonParse) (w : World) (m : string)
         (chunks : list string) (e1 e2 : Effects),
    (forall d, JSON_parse "[DONE]" <> JsonData d) ->
    pending (foldr String.append "" chunks) = "" ->
    Forall (fun l => JS.trim l = l)
      (complete_lines (foldr String.append "" chunks)) ->
    existsb has_finish
      (removelast
         (omap stream_event
            (complete_lines (foldr String.append "" chunks)))) = false ->
    Some (streamed_text (stream_frames w (Some chunks) m e1).1)
    = completion_content
        (handleNonStreamingResponse w (Some chunks) m e2).1.
Proof.
  intros JP w m chunks e1 e2 Hdone Hpend Htrim Hlast.
  assert (Hstream :
    map frame_choices (stream_frames w (Some chunks) m e1).1
    = map (fun d => Some (expected_choices d))
        (omap stream_event (complete_lines (foldr String.append "" chunks)))
      ++ [None]).
  { rewrite stream_frames_some. cbn [fst]. rewrite map_app.
    rewrite (pump_choices w m chunks fresh_pump e1);
      [| done | done | by apply finish_last_ends_chunk].
    cbn [buffer fresh_pump written map app]. rewrite app_empty_l.
    by rewrite through_finish_all. }
  unfold streamed_text.
  rewrite (omap_frame_choices _ _ Hstream), text_of_expected_choices.
  unfold completion_content. simpl. f_equal.
  unfold parseSSEResponse. rewrite foldl_parseSSEResponse_step, app_empty_l.
  change (response_text (Some chunks)) with (foldr String.append "" chunks).
  rewrite split_lines_pending, Hpend, omap_app.
  change (omap sse_event [""]) with (@nil RaycastSSEData).
  by rewrite app_nil_r, omap_events_of_trimmed_lines.
Qed.

Lemma modes_agree_on_terminated_streams_witness :
  Some (streamed_text
          (@stream_frames vendor_event_reader
             (demo_world (ChatNetworkError "")) (Some scenario_B)
             "openai-gpt-4o-mini" no_effects).1)
  = completion_content
      (@handleNonStreamingResponse vendor_event_reader
         (demo_world (ChatNetworkError "")) (Some scenario_B)
         "openai-gpt-4o-mini" no_effects).1.
Proof.
  apply (modes_agree_on_terminated_streams vendor_event_reader).
  - intros d. vm_compute. discriminate.
  - vm_compute. reflexivity.
  - vm_compute. repeat constructor.
  - vm_compute. reflexivity.
Defined.

(** X10. A vendor body none of whose lines yields an event (an empty
    body, no body, text that is not an event stream) still gives a
    non-streaming answer of status 200: one choice with empty content
    and finish reason "stop". *)
Theorem completion_without_events_is_empty :
  forall (JP : JsonParse) (w : World) (c_body : option (list string))
         (m : string) (e : Effects),
    omap sse_event (JS.split (response_text c_body) newline) = [] ->
    status (handleNonStreamingResponse w c_body m e).1 = 200
    /\ completion_content (handleNonStreamingResponse w c_body m e).1 = Some ""
    /\ exists c ch,
         body (handleNonStreamingResponse w c_body m e).1 = CompletionBody c
         /\ resp_choices c = [ch]
         /\ co_finish_reason ch = Some "stop".
Proof.
  intros JP w c_body m e Hnone. split; [done |]. split.
  - unfold completion_content. simpl. f_equal.
    unfold parseSSEResponse. by rewrite foldl_parseSSEResponse_step, Hnone.
  - by do 2 eexists.
Qed.

Lemma completion_without_events_is_empty_witness :
  completion_content
    (@handleNonStreamingResponse vendor_event_reader
       (demo_world (ChatNetworkError ""))
       (Some ["<html>Bad "; "Gateway</html>" +:+ String newline "";
              ": keep-alive" +:+ String newline ""])
       "openai-gpt-4o-mini" no_effects).1 = Some "".
Proof.
  apply (completion_without_events_is_empty vendor_event_reader).
  vm_compute. reflexivity.
Defined.

(** ** The request handler, continued *)

Section Handler.
Context `{JP : JsonParse}.
Variable w : World.

Lemma fold_nothing_passes (env : Env) (ms : list RaycastRawModelData)
    (acc : gmap string ModelInfo) :
  Forall (fun md => passes_filter env md = false) ms ->
  foldl (fetchModels_step env) acc ms = acc.
Proof.
  revert acc. induction ms as [|md ms IH]; intros acc Hms; [done |].
  apply Forall_cons in Hms as [Hmd Hms]. simpl. rewrite IH by done.
  unfold fetchModels_step. unfold passes_filter in Hmd. by rewrite Hmd.
Qed.

Lemma streaming_sends_nothing (c_body : option (list string)) (m : string)
    (e : Effects) :
  sent (handleStreamingResponse w c_body m e).2 = sent e.
Proof.
  unfold handleStreamingResponse, bind, ret.
  destruct c_body as [chunks|]; [| done].
  rewrite stream_frames_some. cbn [snd].
  destruct (pump_stamped w m e chunks fresh_pump e) as (n & att & Heq & _).
  { by apply stamped_start. }
  rewrite Heq. by destruct (iter_tick_calls n e) as (_ & _ & ->).
Qed.

Lemma streaming_failing_sends_nothing (delivered : list string)
    (err : string) (m : string) (e : Effects) :
  sent (handleStreamingResponse_failing w delivered err m e).2 = sent e.
Proof.
  destruct (pump_failing_pump w m delivered fresh_pump e) as (_ & He & _);
    [done |].
  unfold handleStreamingResponse_failing, bind, ret. fold fresh_pump.
  destruct (pump_failing w delivered m fresh_pump e) as [[p fl] e'].
  cbn [fst snd] in *. subst e'.
  transitivity (sent (pump w delivered m fresh_pump e).2);
    [by destruct fl |].
  destruct (pump_stamped w m e delivered fresh_pump e) as (n & att & Heq & _).
  { by apply stamped_start. }
  rewrite Heq. by destruct (iter_tick_calls n e) as (_ & _ & ->).
Qed.

End Handler.

Lemma fetchModels_nothing_to_offer (w : World) (env : Env) (e : Effects) :
  models_fetch_failed (models_endpoint w)
  \/ (exists st ms, models_endpoint w = ModelsHttp st (Some ms)
                    /\ Forall (fun md => passes_filter env md = false) ms) ->
  (fetchModels w env e).1 = ∅.
Proof.
  unfold fetchModels. run_effects.
  intros [Hfail | (st & ms & -> & Hnone)].
  - destruct (models_endpoint w) as [|st [ms|]]; [done | |].
    + destruct Hfail as [-> | ?]; done.
    + by destruct (negb (ok st)).
  - destruct (negb (ok st)); [done |]. simpl. by apply fold_nothing_passes.
Qed.

(** X2. A chat request with messages is answered with HTTP 500, type
    [server_error] and the message "No models available. Check server
    configuration." whenever the catalog comes out empty: the models
    endpoint cannot be reached, answers outside 200..299, sends no
    [models] field, or sends only models that the flags filter out. The
    catalog fetch is the only vendor call. *)
Theorem catalog_unavailable_is_server_error :
  forall (JP : JsonParse) (w : World) (env : Env) (ask : OpenAIChatRequest)
         (e : Effects) (msg : OpenAIMessage) (msgs : list OpenAIMessage),
    oa_messages ask = Some (msg :: msgs) ->
    (models_fetch_failed (models_endpoint w)
     \/ exists st ms, models_endpoint w = ModelsHttp st (Some ms)
                      /\ Forall (fun md => passes_filter env md = false) ms) ->
    handleChatCompletions w (JsonBody ask) env e
    = (Resolved
         {| status := 500;
            body := ErrorBody
                      "No models available. Check server configuration."
                      "server_error" |},
       {| uuid_calls := uuid_calls e;
          clock_reads := clock_reads e;
          sent := sent e ++ [GetModels] |}).
Proof.
  intros JP w env ask e msg msgs Hmsgs Hnone.
  rewrite (handle_with_messages w ask env e msg msgs Hmsgs). cbv zeta.
  by rewrite (fetchModels_nothing_to_offer w env e Hnone).
Qed.

Lemma catalog_unavailable_is_server_error_witness :
  @handleChatCompletions vendor_event_reader premium_only_world
    (JsonBody (terse_body (Some "anthropic-claude-opus") None))
    demo_env no_effects
  = (Resolved
       {| status := 500;
          body := ErrorBody
                    "No models available. Check server configuration."
                    "server_error" |},
     {| uuid_calls := 0; clock_reads := 0; sent := [GetModels] |}).
Proof.
  apply (catalog_unavailable_is_server_error vendor_event_reader
           premium_only_world demo_env
           (terse_body (Some "anthropic-claude-opus") None) no_effects
           {| role := "system"; content := "Be terse" |}
           [{| role := "user"; content := "hi" |}] eq_refl).
  right. eexists 200, _. split; [reflexivity |].
  repeat constructor.
Defined.

(** X3. When the requested id is in the catalog and the vendor answers
    with success, exactly one chat request follows the catalog fetch. It
    names the catalog entry's provider and internal model, not the public
    id; it carries the translated messages and system instruction, the
    temperature (1/2 when the caller gives none) and a freshly drawn
    thread id. The answer has status 200, is a stream iff the caller
    set [stream], and is labelled with the public id. *)
Theorem relay_request_uses_catalog_entry :
  forall (JP : JsonParse) (w : World) (env : Env) (ask : OpenAIChatRequest)
         (e : Effects) (msg : OpenAIMessage) (msgs : list OpenAIMessage)
         (info : ModelInfo) (st : nat) (c_body : option (list string)),
    oa_messages ask = Some (msg :: msgs) ->
    (fetchModels w env e).1 !! requested_model ask = Some info ->
    chat_endpoint w
      (vendor_request ask (msg :: msgs) info (uuid_at w (uuid_calls e)))
      = ChatHttp st c_body ->
    ok st = true ->
    sent (handleChatCompletions w (JsonBody ask) env e).2
    = sent e
      ++ [GetModels;
          PostChat (vendor_request ask (msg :: msgs) info
                      (uuid_at w (uuid_calls e)))]
    /\ exists r,
         (handleChatCompletions w (JsonBody ask) env e).1 = Resolved r
         /\ status r = 200
         /\ match body r with
            | StreamBody fs =>
                oa_stream ask = Some true
                /\ exists fs', fs = fs' ++ [DoneFrame]
                               /\ Forall (is_chunk_for (requested_model ask)) fs'
                               \/ fs = []
            | CompletionBody c =>
                oa_stream ask <> Some true
                /\ resp_model c = requested_model ask
            | ErrorBody _ _ => False
            | BrokenStreamBody _ _ => False
            end.
Proof.
  intros JP w env ask e msg msgs info st c_body Hmsgs Hlook Hanswer Hok.
  rewrite (handle_with_messages w ask env e msg msgs Hmsgs). cbv zeta.
  assert (Hsize : (size (fetchModels w env e).1 =? 0) = false).
  { apply not_true_is_false. intros Hz. apply size_zero_empty in Hz.
    by rewrite Hz, lookup_empty in Hlook. }
  rewrite Hsize, Hlook, Hanswer, Hok. cbn [negb].
  destruct (oa_stream ask) as [[|]|] eqn:Hstream; simpl (default false _);
    cbv iota; cbn [fst snd].
  - split; [by rewrite streaming_sends_nothing |].
    eexists. split; [done |].
    unfold handleStreamingResponse, bind, ret.
    destruct c_body as [chunks|].
    + rewrite stream_frames_some. cbn. split; [done |]. split; [done |].
      eexists. left. split; [done |]. by apply pump_chunks.
    + cbn. split; [done |]. split; [done |]. exists []. by right.
  - split; [done |]. by eexists.
  - split; [done |]. by eexists.
Qed.

Lemma relay_request_uses_catalog_entry_witness :
  sent (@handleChatCompletions vendor_event_reader
          (demo_world (ChatHttp 200 (Some scenario_B)))
          (JsonBody (terse_body None (Some true))) demo_env no_effects).2
  = [GetModels;
     PostChat {| rq_model := "gpt-4o-mini"; rq_provider := "openai";
                 messages := [{| author := "user";
                                 rm_content := {| text := "hi" |} |}];
                 system_instruction := "Be terse";
                 temperature := (1 # 2)%Q;
                 additional_system_instructions := "";
                 debug := false; locale := "en-US"; source := "ai_chat";
                 thread_id := "uuid-0"; tools := [] |}].
Proof.
  exact (proj1 (relay_request_uses_catalog_entry vendor_event_reader
                  (demo_world (ChatHttp 200 (Some scenario_B))) demo_env
                  (terse_body None (Some true)) no_effects
                  {| role := "system"; content := "Be terse" |}
                  [{| role := "user"; content := "hi" |}]
                  {| provider := "openai"; model := "gpt-4o-mini" |}
                  200 (Some scenario_B)
                  eq_refl
                  ltac:(vm_compute; reflexivity)
                  eq_refl eq_refl)).
Defined.

(** X4. A chat request makes no vendor call when its body is unreadable
    or has no messages, and otherwise fetches the catalog first and then
    sends at most one chat request; a chat request is only ever sent for
    a model id found in the catalog, with that entry's provider and
    internal model. *)
Theorem vendor_calls_of_a_chat_request :
  forall (JP : JsonParse) (w : World) (req : RequestJson) (env : Env)
         (e : Effects),
    exists calls : list VendorCall,
      sent (handleChatCompletions w req env e).2 = sent e ++ calls
      /\ chat_calls calls
      /\ (calls = [] <-> lacks_messages req)
      /\ forall rq, calls = [GetModels; PostChat rq] ->
           exists body info,
             req = JsonBody body
             /\ (fetchModels w env e).1 !! requested_model body = Some info
             /\ rq_model rq = model info
             /\ rq_provider rq = provider info.
Proof.
  intros JP w req env e. destruct req as [err | body].
  { exists []. simpl. rewrite app_nil_r.
    repeat split; [constructor | done]. }
  destruct (oa_messages body) as [[|msg msgs]|] eqn:Hmsgs.
  - exists []. unfold handleChatCompletions. rewrite Hmsgs. simpl.
    rewrite app_nil_r. repeat split; [constructor | by right | done].
  - rewrite (handle_with_messages w body env e msg msgs Hmsgs). cbv zeta.
    assert (Hhas : ~ lacks_messages (JsonBody body)).
    { simpl. rewrite Hmsgs. by intros [? | ?]. }
    destruct (size (fetchModels w env e).1 =? 0).
    { exists [GetModels]. repeat split; [constructor | done | done | done]. }
    destruct ((fetchModels w env e).1 !! requested_model body)
      as [info|] eqn:Hlook.
    2: { exists [GetModels]. repeat split; [constructor | done | done | done]. }
    exists [GetModels;
            PostChat (vendor_request body (msg :: msgs) info
                        (uuid_at w (uuid_calls e)))].
    split; [| split; [constructor | split; [done |]]].
    + destruct (chat_endpoint w _) as [err | st c_body | st delivered err];
        [done | |].
      * destruct (negb (ok st)); [done |].
        destruct (default false (oa_stream body)); cbn [snd];
          [by rewrite streaming_sends_nothing | done].
      * destruct (negb (ok st)); [done |].
        destruct (default false (oa_stream body)); cbn [snd];
          [by rewrite streaming_failing_sends_nothing | done].
    + intros rq [= <-]. by exists body, info.
  - exists []. unfold handleChatCompletions. rewrite Hmsgs. simpl.
    rewrite app_nil_r. repeat split; [constructor | by left | done].
Qed.

Lemma vendor_calls_of_a_chat_request_witness :
  exists info : ModelInfo,
    (fetchModels (demo_world (ChatHttp 200 (Some scenario_B))) demo_env
       no_effects).1 !! "openai-gpt-4o-mini" = Some info
    /\ model info = "gpt-4o-mini"
    /\ provider info = "openai".
Proof.
  destruct (vendor_calls_of_a_chat_request vendor_event_reader
              (demo_world (ChatHttp 200 (Some scenario_B)))
              (JsonBody (terse_body None (Some true))) demo_env no_effects)
    as (calls & Hsent & _ & _ & Hrq).
  vm_compute in Hsent.
  destruct (Hrq _ (eq_sym Hsent)) as (ask & info & Hask & Hlook & Hm & Hp).
  injection Hask as <-.
  exists info. split; [exact Hlook |]. split; [by rewrite <- Hm | by rewrite <- Hp].
Defined.

(** ** The API key *)

Lemma startsWith_app (p k : string) : JS.startsWith (p +:+ k) p = true.
Proof.
  unfold JS.startsWith. induction p as [|c p IH]; [by destruct k |].
  rewrite app_cons. simpl. by destruct (ascii_dec c c).
Qed.

Lemma startsWith_split (h p : string) :
  JS.startsWith h p = true ->
  h = p +:+ JS.substring_from (String.length p) h.
Proof.
  unfold JS.startsWith. revert h. induction p as [|c p IH]; intros h.
  - by destruct h.
  - destruct h as [|d h]; simpl; [done |].
    destruct (ascii_dec c d) as [-> |]; [| done].
    intros H. rewrite app_cons. f_equal. by apply IH.
Qed.

(** X11. A request passes the key check iff no key is configured (the
    variable is unset or empty) or its [Authorization] header is exactly
    [Bearer ], in this letter case and with one space, followed by the
    configured key. *)
Theorem validateApiKey_spec :
  forall (req : WorkerRequest) (env : Env),
    validateApiKey req env = true
    <-> API_KEY env = None
        \/ API_KEY env = Some ""
        \/ exists k, API_KEY env = Some k
                     /\ req_authorization req = Some ("Bearer " +:+ k).
Proof.
  intros req env. unfold validateApiKey.
  destruct (API_KEY env) as [k|] eqn:Hkey; simpl; [| by split; [left |]].
  case_bool_decide as Hk; simpl.
  { subst k. split; [by right; left | done]. }
  rewrite bool_decide_eq_true. split.
  - intros Hprov. right. right. exists k. split; [done |].
    destruct (req_authorization req) as [h|]; [| done].
    destruct (JS.startsWith h "Bearer ") eqn:Hpre; [| done].
    injection Hprov as <-. f_equal.
    by apply (startsWith_split h "Bearer ").
  - intros [? | [[= ?] | (k' & [= <-] & ->)]]; [done | done |].
    by rewrite (startsWith_app "Bearer " k).
Qed.

Lemma validateApiKey_spec_witness :
  validateApiKey
    {| req_method := "POST"; req_pathname := "/v1/chat/completions";
       req_authorization := Some "Bearer secret";
       req_json := JsonThrows "no body" |}
    {| RAYCAST_BEARER_TOKEN := "token"; API_KEY := Some "secret";
       ADVANCED := None; INCLUDE_DEPRECATED := None |} = true.
Proof.
  apply (proj2 (validateApiKey_spec _ _)).
  right. right. by exists "secret".
Defined.

(** ** The worker *)

Section WorkerFacts.
Context `{JP : JsonParse}.
Variable w : World.

Lemma relay_headers_cors (b : ResponseBody) :
  headers_has (relay_headers b) "Access-Control-Allow-Origin" = true
  /\ headers_get (relay_headers b) "Access-Control-Allow-Origin" = Some "*".
Proof. by destruct b; vm_compute. Qed.

Lemma handleModels_answer (env : Env) (e : Effects) :
  w_status (Worker.handleModels w env e).1 = 200
  /\ w_headers (Worker.handleModels w env e).1 = json_headers.
Proof.
  unfold Worker.handleModels, bind, ret.
  destruct (fetchModels_entries w env e) as [entries e1].
  by destruct (Worker.list_models w entries e1).
Qed.

Lemma list_models_sent (entries : list (string * ModelInfo)) (e : Effects) :
  sent (Worker.list_models w entries e).2 = sent e.
Proof.
  revert e. induction entries as [|[k info] entries IH]; intros e; [done |].
  simpl. unfold bind, ret, Date_now.
  specialize (IH {| uuid_calls := uuid_calls e;
                    clock_reads := S (clock_reads e);
                    sent := sent e |}).
  by destruct (Worker.list_models w entries _).
Qed.

Lemma fetchModels_entries_effects (env : Env) (e : Effects) :
  (fetchModels_entries w env e).2 = after_models_fetch e.
Proof.
  unfold fetchModels_entries. run_effects.
  destruct (models_endpoint w) as [|st [ms|]]; [done | |];
    by destruct (negb (ok st)).
Qed.

Lemma handleModels_sent (env : Env) (e : Effects) :
  sent (Worker.handleModels w env e).2 = sent e ++ [GetModels].
Proof.
  unfold Worker.handleModels, bind, ret.
  pose proof (fetchModels_entries_effects env e) as Heff.
  destruct (fetchModels_entries w env e) as [entries e1]. simpl in Heff.
  pose proof (list_models_sent entries e1) as Hsent.
  destruct (Worker.list_models w entries e1) as [data e2]. simpl in *.
  by rewrite Hsent, Heff.
Qed.

(** The route table, case by case. *)
Lemma route_cases (request : WorkerRequest) (env : Env) (e : Effects) :
  (chat_route request
   /\ Worker.route w request env e
      = (match (handleChatCompletions w (req_json request) env e).1 with
         | Resolved r => Resolved (relay_response r)
         | Rejected err => Rejected err
         end,
         (handleChatCompletions w (req_json request) env e).2))
  \/ (models_route request
      /\ Worker.route w request env e
         = (Resolved (Worker.handleModels w env e).1,
            (Worker.handleModels w env e).2))
  \/ (health_route request
      /\ Worker.route w request env e = (Resolved Worker.health, e))
  \/ (~ chat_route request /\ ~ models_route request
      /\ ~ health_route request
      /\ Worker.route w request env e
         = (Resolved
              (relay_response
                 (errorResponse "Not Found" 404 "invalid_request_error")), e)).
Proof.
  unfold Worker.route, chat_route, models_route, health_route.
  destruct (bool_decide (req_pathname request = "/v1/chat/completions")
            && bool_decide (req_method request = "POST")) eqn:Hchat.
  { left. apply andb_true_iff in Hchat as [Hp Hm].
    apply bool_decide_eq_true in Hp, Hm. split; [done |].
    unfold bind, ret.
    by destruct (handleChatCompletions w _ env e) as [[r | err] e1]. }
  destruct (bool_decide (req_pathname request = "/v1/models")
            && bool_decide (req_method request = "GET")) eqn:Hmodels.
  { right. left. apply andb_true_iff in Hmodels as [Hp Hm].
    apply bool_decide_eq_true in Hp, Hm. split; [done |].
    unfold bind, ret. by destruct (Worker.handleModels w env e). }
  destruct (bool_decide (req_pathname request = "/health")
            && bool_decide (req_method request = "GET")) eqn:Hhealth.
  { right. right. left. apply andb_true_iff in Hhealth as [Hp Hm].
    by apply bool_decide_eq_true in Hp, Hm. }
  right. right. right.
  repeat split; try done;
    intros [Hp Hm];
    [ rewrite (bool_decide_eq_true_2 _ Hp), (bool_decide_eq_true_2 _ Hm)
        in Hchat
    | rewrite (bool_decide_eq_true_2 _ Hp), (bool_decide_eq_true_2 _ Hm)
        in Hmodels
    | rewrite (bool_decide_eq_true_2 _ Hp), (bool_decide_eq_true_2 _ Hm)
        in Hhealth ]; done.
Qed.

Lemma route_cors (request : WorkerRequest) (env : Env) (e : Effects)
    (response : WorkerResponse) :
  (Worker.route w request env e).1 = Resolved response ->
  headers_has (w_headers response) "Access-Control-Allow-Origin" = true
  /\ headers_get (w_headers response) "Access-Control-Allow-Origin"
     = Some "*".
Proof.
  destruct (route_cases request env e)
    as [[_ ->] | [[_ ->] | [[_ ->] | (_ & _ & _ & ->)]]]; cbn [fst].
  - destruct (handleChatCompletions w _ env e).1 as [r | err]; [| done].
    intros [= <-]. apply relay_headers_cors.
  - intros [= <-]. destruct (handleModels_answer env e) as [_ ->].
    by vm_compute.
  - intros [= <-]. by vm_compute.
  - intros [= <-]. by vm_compute.
Qed.

(** The gates of [fetch], case by case; past them the answer of the
    route is returned as it is, since it has its CORS header already,
    and a rejection is turned into the answer of the outer [catch]. *)
Lemma fetch_cases (request : WorkerRequest) (env : Env) (e : Effects) :
  (RAYCAST_BEARER_TOKEN env = ""
   /\ Worker.fetch w request env e
      = (relay_response
           (errorResponse
              "Server configuration error: Missing Raycast credentials"
              500 "server_error"), e))
  \/ (RAYCAST_BEARER_TOKEN env <> "" /\ req_method request = "OPTIONS"
      /\ Worker.fetch w request env e = (handleOptions, e))
  \/ (RAYCAST_BEARER_TOKEN env <> "" /\ req_method request <> "OPTIONS"
      /\ validateApiKey request env = false
      /\ Worker.fetch w request env e
         = (relay_response
              (errorResponse "Invalid API key provided." 401
                 "authentication_error"), e))
  \/ (RAYCAST_BEARER_TOKEN env <> "" /\ req_method request <> "OPTIONS"
      /\ validateApiKey request env = true
      /\ Worker.fetch w request env e
         = (match (Worker.route w request env e).1 with
            | Resolved response => response
            | Rejected _ =>
                relay_response
                  (errorResponse
                     "An unexpected internal server error occurred."
                     500 "server_error")
            end,
            (Worker.route w request env e).2)).
Proof.
  unfold Worker.fetch.
  case_bool_decide as Htoken; [by left |].
  case_bool_decide as Hoptions; [by right; left |].
  destruct (validateApiKey request env) eqn:Hkey; simpl;
    [| by right; right; left].
  right. right. right. repeat split; try done.
  unfold bind, ret.
  pose proof (route_cors request env e) as Hcors.
  destruct (Worker.route w request env e) as [[response | err] e1];
    [| done].
  destruct (Hcors response eq_refl) as [Hhas _]. by rewrite Hhas.
Qed.

Lemma handler_without_messages (req : RequestJson) (env : Env) (e : Effects) :
  lacks_messages req -> (handleChatCompletions w req env e).2 = e.
Proof.
  destruct req as [err | ask]; [done |]. simpl.
  unfold handleChatCompletions. by intros [-> | ->].
Qed.

Lemma streaming_status (c_body : option (list string)) (m : string)
    (e : Effects) :
  status (handleStreamingResponse w c_body m e).1 = 200.
Proof.
  unfold handleStreamingResponse, bind, ret.
  by destruct (stream_frames w c_body m e).
Qed.

Lemma streaming_failing_status (delivered : list string) (err : string)
    (m : string) (e : Effects) :
  status (handleStreamingResponse_failing w delivered err m e).1 = 200.
Proof.
  unfold handleStreamingResponse_failing, bind, ret.
  by destruct (pump_failing w delivered m _ e) as [[p []] e1].
Qed.

Lemma handler_status (req : RequestJson) (env : Env) (e : Effects)
    (r : Response) :
  (handleChatCompletions w req env e).1 = Resolved r ->
  status r ∈ [200; 400; 500; 502].
Proof.
  destruct req as [err | ask];
    [simpl; intros [= <-]; repeat constructor |].
  destruct (oa_messages ask) as [[|msg msgs]|] eqn:Hmsgs.
  - unfold handleChatCompletions. rewrite Hmsgs. simpl.
    intros [= <-]. repeat constructor.
  - rewrite (handle_with_messages w ask env e msg msgs Hmsgs). cbv zeta.
    destruct (size (fetchModels w env e).1 =? 0);
      [intros [= <-]; repeat constructor |].
    destruct ((fetchModels w env e).1 !! requested_model ask);
      [| intros [= <-]; repeat constructor].
    destruct (chat_endpoint w _) as [err | st c_body | st delivered err];
      [intros [= <-]; repeat constructor | |].
    + destruct (negb (ok st)); [intros [= <-]; repeat constructor |].
      destruct (default false (oa_stream ask)); intros [= <-].
      * rewrite streaming_status. repeat constructor.
      * simpl. repeat constructor.
    + destruct (negb (ok st)); [intros [= <-]; repeat constructor |].
      destruct (default false (oa_stream ask)); [| done].
      intros [= <-]. rewrite streaming_failing_status. repeat constructor.
  - unfold handleChatCompletions. rewrite Hmsgs. simpl.
    intros [= <-]. repeat constructor.
Qed.

End WorkerFacts.

(** X12. The worker checks, in this order and before it looks at the
    route: the vendor credentials (without them every request, a
    preflight included, gets HTTP 500 of type [server_error] with the
    message "Server configuration error: Missing Raycast credentials");
    the method (an [OPTIONS] request gets the preflight answer, status
    200 with the four CORS headers and no body, whatever its path and
    its key); the API key (any other request with a wrong key gets
    HTTP 401 of type [authentication_error] with the message "Invalid
    API key provided.", [/health] and unknown paths included). The two
    error answers are JSON and allow any origin. None of the three
    answers touches the vendor. *)
Theorem worker_gates_in_order :
  forall (JP : JsonParse) (w : World) (request : WorkerRequest) (env : Env)
         (e : Effects),
    (RAYCAST_BEARER_TOKEN env = "" ->
     Worker.fetch w request env e
     = ({| w_status := 500;
           w_headers := [("Content-Type", "application/json");
                         ("Access-Control-Allow-Origin", "*")];
           w_body :=
             RelayBody
               (ErrorBody
                  "Server configuration error: Missing Raycast credentials"
                  "server_error") |}, e))
    /\ (RAYCAST_BEARER_TOKEN env <> "" ->
        req_method request = "OPTIONS" ->
        Worker.fetch w request env e
        = ({| w_status := 200;
              w_headers :=
                [("Access-Control-Allow-Origin", "*");
                 ("Access-Control-Allow-Methods", "GET, POST, OPTIONS");
                 ("Access-Control-Allow-Headers",
                  "Content-Type, Authorization");
                 ("Access-Control-Max-Age", "86400")];
              w_body := NullBody |}, e))
    /\ (RAYCAST_BEARER_TOKEN env <> "" ->
        req_method request <> "OPTIONS" ->
        validateApiKey request env = false ->
        Worker.fetch w request env e
        = ({| w_status := 401;
              w_headers := [("Content-Type", "application/json");
                            ("Access-Control-Allow-Origin", "*")];
              w_body :=
                RelayBody
                  (ErrorBody "Invalid API key provided."
                     "authentication_error") |}, e)).
Proof.
  intros JP w request env e.
  destruct (fetch_cases w request env e)
    as [[H1 ->] | [(H1 & H2 & ->) | [(H1 & H2 & H3 & ->) | (H1 & H2 & H3 & _)]]];
    repeat split; intros; congruence.
Qed.

Lemma worker_gates_in_order_witness :
  @Worker.fetch vendor_event_reader (demo_world (ChatNetworkError ""))
    {| req_method := "GET"; req_pathname := "/health";
       req_authorization := Some "bearer secret";
       req_json := JsonThrows "no body" |}
    {| RAYCAST_BEARER_TOKEN := "token"; API_KEY := Some "secret";
       ADVANCED := None; INCLUDE_DEPRECATED := None |}
    no_effects
  = ({| w_status := 401;
        w_headers := [("Content-Type", "application/json");
                      ("Access-Control-Allow-Origin", "*")];
        w_body :=
          RelayBody
            (ErrorBody "Invalid API key provided."
               "authentication_error") |},
     no_effects).
Proof.
  apply (proj2 (proj2 (worker_gates_in_order vendor_event_reader
                         (demo_world (ChatNetworkError "")) _ _ no_effects))).
  - discriminate.
  - discriminate.
  - vm_compute. reflexivity.
Defined.

(** X13. The worker contacts the vendor only for a request that has
    passed the credentials check and the key check, is not a preflight,
    and is either a chat completion with messages or a model listing. *)
Theorem vendor_contact_needs_a_valid_request :
  forall (JP : JsonParse) (w : World) (request : WorkerRequest) (env : Env)
         (e : Effects),
    sent (Worker.fetch w request env e).2 <> sent e ->
    RAYCAST_BEARER_TOKEN env <> ""
    /\ req_method request <> "OPTIONS"
    /\ validateApiKey request env = true
    /\ ((chat_route request /\ ~ lacks_messages (req_json request))
        \/ models_route request).
Proof.
  intros JP w request env e Hsent.
  destruct (fetch_cases w request env e)
    as [[_ Hf] | [(_ & _ & Hf) | [(_ & _ & _ & Hf) | (H1 & H2 & H3 & Hf)]]];
    rewrite Hf in Hsent; [done | done | done |].
  repeat split; try done. cbn [snd] in Hsent.
  destruct (route_cases w request env e)
    as [[Hroute Hr] | [[Hroute _] | [[_ Hr] | (_ & _ & _ & Hr)]]];
    [| by right | by rewrite Hr in Hsent | by rewrite Hr in Hsent].
  left. split; [done |]. intros Hlacks. apply Hsent.
  rewrite Hr. cbn [snd]. by rewrite handler_without_messages.
Qed.

Lemma vendor_contact_needs_a_valid_request_witness :
  validateApiKey
    {| req_method := "GET"; req_pathname := "/v1/models";
       req_authorization := Some "Bearer secret";
       req_json := JsonThrows "no body" |}
    {| RAYCAST_BEARER_TOKEN := "token"; API_KEY := Some "secret";
       ADVANCED := None; INCLUDE_DEPRECATED := None |} = true.
Proof.
  apply (vendor_contact_needs_a_valid_request vendor_event_reader
           (demo_world (ChatNetworkError "")) _ _ no_effects).
  vm_compute. discriminate.
Defined.

(** X14. Every answer of the worker carries
    [Access-Control-Allow-Origin: *], whatever the request, the
    environment and the vendor do. *)
Theorem every_answer_allows_any_origin :
  forall (JP : JsonParse) (w : World) (request : WorkerRequest) (env : Env)
         (e : Effects),
    headers_get (w_headers (Worker.fetch w request env e).1)
      "Access-Control-Allow-Origin" = Some "*".
Proof.
  intros JP w request env e.
  destruct (fetch_cases w request env e)
    as [[_ ->] | [(_ & _ & ->) | [(_ & _ & _ & ->) | (_ & _ & _ & ->)]]];
    [by vm_compute | by vm_compute | by vm_compute |].
  cbn [fst].
  destruct (Worker.route w request env e).1 as [response | err] eqn:Hroute;
    [| by vm_compute].
  by destruct (route_cors w request env e response Hroute).
Qed.

(** X15. The worker answers with one of the statuses 200, 400, 401, 404,
    500 and 502, and with no other. *)
Theorem worker_status_is_one_of_six :
  forall (JP : JsonParse) (w : World) (request : WorkerRequest) (env : Env)
         (e : Effects),
    w_status (Worker.fetch w request env e).1 ∈ worker_statuses.
Proof.
  intros JP w request env e. unfold worker_statuses.
  destruct (fetch_cases w request env e)
    as [[_ ->] | [(_ & _ & ->) | [(_ & _ & _ & ->) | (_ & _ & _ & ->)]]];
    [simpl; repeat constructor.. |].
  destruct (route_cases w request env e)
    as [[_ ->] | [[_ ->] | [[_ ->] | (_ & _ & _ & ->)]]]; cbn [fst].
  - pose proof (handler_status w (req_json request) env e) as Hst.
    destruct (handleChatCompletions w (req_json request) env e).1
      as [r | err]; [| simpl; repeat constructor].
    specialize (Hst r eq_refl). cbn [relay_response w_status].
    rewrite !elem_of_cons in Hst. rewrite !elem_of_cons. tauto.
  - destruct (handleModels_answer w env e) as [-> _]. repeat constructor.
  - simpl. repeat constructor.
  - simpl. repeat constructor.
Qed.

(** X16. A request that passes the three checks but matches none of
    [POST /v1/chat/completions], [GET /v1/models] and [GET /health] gets
    HTTP 404 of type [invalid_request_error] with the message
    "Not Found", as JSON that allows any origin: a known path with
    another method is not found either. No vendor call is made. *)
Theorem unmatched_route_is_not_found :
  forall (JP : JsonParse) (w : World) (request : WorkerRequest) (env : Env)
         (e : Effects),
    RAYCAST_BEARER_TOKEN env <> "" ->
    req_method request <> "OPTIONS" ->
    validateApiKey request env = true ->
    ~ chat_route request -> ~ models_route request ->
    ~ health_route request ->
    Worker.fetch w request env e
    = ({| w_status := 404;
          w_headers := [("Content-Type", "application/json");
                        ("Access-Control-Allow-Origin", "*")];
          w_body := RelayBody (ErrorBody "Not Found" "invalid_request_error") |},
       e).
Proof.
  intros JP w request env e Htoken Hmethod Hkey Hchat Hmodels Hhealth.
  destruct (fetch_cases w request env e)
    as [[? _] | [(_ & ? & _) | [(_ & _ & ? & _) | (_ & _ & _ & ->)]]];
    [done | done | congruence |].
  by destruct (route_cases w request env e)
    as [[? _] | [[? _] | [[? _] | (_ & _ & _ & ->)]]].
Qed.

Lemma unmatched_route_is_not_found_witness :
  @Worker.fetch vendor_event_reader (demo_world (ChatNetworkError ""))
    {| req_method := "GET"; req_pathname := "/v1/chat/completions";
       req_authorization := None;
       req_json := JsonThrows "no body" |}
    demo_env no_effects
  = ({| w_status := 404;
        w_headers := [("Content-Type", "application/json");
                      ("Access-Control-Allow-Origin", "*")];
        w_body := RelayBody (ErrorBody "Not Found" "invalid_request_error") |},
     no_effects).
Proof.
  apply (unmatched_route_is_not_found vendor_event_reader).
  - discriminate.
  - discriminate.
  - reflexivity.
  - intros [_ H]. discriminate H.
  - intros [H _]. discriminate H.
  - intros [H _]. discriminate H.
Defined.

(** X20. A chat request that is not streamed, for a model of the
    catalog, to which the vendor answers with success but whose body
    cannot be read to its end, leaves the request handler without an
    answer (its own [catch] does not see the failure); the worker
    answers HTTP 500 of type [server_error] with the message "An
    unexpected internal server error occurred." and the message of the
    failed read reaches the caller nowhere. No id is drawn beyond the
    thread id and the clock is not read. *)
Theorem unread_completion_body_is_server_error :
  forall (JP : JsonParse) (w : World) (request : WorkerRequest) (env : Env)
         (e : Effects) (ask : OpenAIChatRequest) (msg : OpenAIMessage)
         (msgs : list OpenAIMessage) (info : ModelInfo) (st : nat)
         (delivered : list string) (err : string),
    RAYCAST_BEARER_TOKEN env <> "" ->
    req_method request <> "OPTIONS" ->
    validateApiKey request env = true ->
    chat_route request ->
    req_json request = JsonBody ask ->
    oa_messages ask = Some (msg :: msgs) ->
    default false (oa_stream ask) = false ->
    (fetchModels w env e).1 !! requested_model ask = Some info ->
    chat_endpoint w
      (vendor_request ask (msg :: msgs) info (uuid_at w (uuid_calls e)))
      = ChatHttpBroken st delivered err ->
    ok st = true ->
    (handleChatCompletions w (JsonBody ask) env e).1 = Rejected err
    /\ Worker.fetch w request env e
       = ({| w_status := 500;
             w_headers := [("Content-Type", "application/json");
                           ("Access-Control-Allow-Origin", "*")];
             w_body :=
               RelayBody
                 (ErrorBody "An unexpected internal server error occurred."
                    "server_error") |},
          {| uuid_calls := S (uuid_calls e);
             clock_reads := clock_reads e;
             sent := sent e
                     ++ [GetModels;
                         PostChat (vendor_request ask (msg :: msgs) info
                                     (uuid_at w (uuid_calls e)))] |}).
Proof.
  intros JP w request env e ask msg msgs info st delivered err
    Htoken Hmethod Hkey Hchat Hjson Hmsgs Hstream Hlook Hanswer Hok.
  assert (Hsize : (size (fetchModels w env e).1 =? 0) = false).
  { apply not_true_is_false. intros Hz. apply size_zero_empty in Hz.
    by rewrite Hz, lookup_empty in Hlook. }
  assert (Hrun : handleChatCompletions w (JsonBody ask) env e
                 = (Rejected err,
                    after_chat_request e
                      (vendor_request ask (msg :: msgs) info
                         (uuid_at w (uuid_calls e))))).
  { rewrite (handle_with_messages w ask env e msg msgs Hmsgs). cbv zeta.
    by rewrite Hsize, Hlook, Hanswer, Hok, Hstream. }
  split; [by rewrite Hrun |].
  destruct (fetch_cases w request env e)
    as [[? _] | [(_ & ? & _) | [(_ & _ & ? & _) | (_ & _ & _ & ->)]]];
    [done | done | congruence |].
  destruct (route_cases w request env e)
    as [[_ ->] | [[[Hp Hm] _] | [[[Hp Hm] _] | (? & _)]]].
  - by rewrite Hjson, Hrun.
  - destruct Hchat as [Hp' _]. congruence.
  - destruct Hchat as [Hp' _]. congruence.
  - done.
Qed.

Lemma unread_completion_body_is_server_error_witness :
  @Worker.fetch vendor_event_reader
    (demo_world (ChatHttpBroken 200 [data_line "text" "Hel"]
                   "Network connection lost."))
    {| req_method := "POST"; req_pathname := "/v1/chat/completions";
       req_authorization := None;
       req_json := JsonBody (terse_body None None) |}
    demo_env no_effects
  = ({| w_status := 500;
        w_headers := [("Content-Type", "application/json");
                      ("Access-Control-Allow-Origin", "*")];
        w_body :=
          RelayBody
            (ErrorBody "An unexpected internal server error occurred."
               "server_error") |},
     {| uuid_calls := 1; clock_reads := 0;
        sent :=
          [GetModels;
           PostChat
             (vendor_request (terse_body None None)
                [{| role := "system"; content := "Be terse" |};
                 {| role := "user"; content := "hi" |}]
                {| provider := "openai"; model := "gpt-4o-mini" |}
                "uuid-0")] |}).
Proof.
  exact (proj2 (unread_completion_body_is_server_error vendor_event_reader
                  (demo_world (ChatHttpBroken 200 [data_line "text" "Hel"]
                                 "Network connection lost."))
                  {| req_method := "POST";
                     req_pathname := "/v1/chat/completions";
                     req_authorization := None;
                     req_json := JsonBody (terse_body None None) |}
                  demo_env no_effects (terse_body None None)
                  {| role := "system"; content := "Be terse" |}
                  [{| role := "user"; content := "hi" |}]
                  {| provider := "openai"; model := "gpt-4o-mini" |}
                  200 [data_line "text" "Hel"] "Network connection lost."
                  ltac:(discriminate) ltac:(discriminate) eq_refl
                  (conj eq_refl eq_refl) eq_refl eq_refl eq_refl
                  ltac:(vm_compute; reflexivity) eq_refl eq_refl)).
Defined.

(** ** The model listing *)

Lemma Map_set_to_map (k : string) (v : ModelInfo)
    (entries : list (string * ModelInfo)) :
  (list_to_map (Map_set k v entries) : gmap string ModelInfo)
  = <[k := v]> (list_to_map entries).
Proof.
  induction entries as [|[k' v'] entries IH]; [done |].
  simpl. destruct (decide (k' = k)) as [-> | Hne]; simpl.
  - by rewrite insert_insert_eq.
  - rewrite IH. by apply insert_insert_ne.
Qed.

Lemma Map_set_keys (k : string) (v : ModelInfo)
    (entries : list (string * ModelInfo)) (x : string) :
  x ∈ (Map_set k v entries).*1 -> x = k \/ x ∈ entries.*1.
Proof.
  induction entries as [|[k' v'] entries IH]; simpl.
  - intros ->%list_elem_of_singleton. by left.
  - destruct (decide (k' = k)) as [-> | Hne]; simpl.
    + intros [-> | H]%elem_of_cons; [by left | right; by right].
    + intros [-> | H]%elem_of_cons; [right; by left |].
      destruct (IH H); [by left | right; by right].
Qed.

Lemma Map_set_NoDup (k : string) (v : ModelInfo)
    (entries : list (string * ModelInfo)) :
  NoDup entries.*1 -> NoDup (Map_set k v entries).*1.
Proof.
  induction entries as [|[k' v'] entries IH]; simpl.
  - intros _. repeat constructor. by intros ?%elem_of_nil.
  - intros [Hfresh Hnd]%NoDup_cons.
    destruct (decide (k' = k)) as [-> | Hne]; simpl.
    + by apply NoDup_cons.
    + apply NoDup_cons. split; [| by apply IH].
      intros Hin. destruct (Map_set_keys _ _ _ _ Hin); done.
Qed.

(** A fresh key goes to the end of the entries. *)
Lemma Map_set_fresh (k : string) (v : ModelInfo)
    (entries : list (string * ModelInfo)) :
  k ∉ entries.*1 -> Map_set k v entries = entries ++ [(k, v)].
Proof.
  induction entries as [|[k' v'] entries IH]; simpl; [done |].
  intros [Hne Hfresh]%not_elem_of_cons.
  destruct (decide (k' = k)); [done |]. by rewrite IH.
Qed.

Section Listing.
Variable env : Env.

Lemma entries_step_to_map (entries : list (string * ModelInfo))
    (md : RaycastRawModelData) :
  (list_to_map (fetchModels_entries_step env entries md)
     : gmap string ModelInfo)
  = fetchModels_step env (list_to_map entries) md.
Proof.
  unfold fetchModels_entries_step, fetchModels_step.
  destruct (_ && _); [apply Map_set_to_map | done].
Qed.

Lemma entries_fold_to_map (ms : list RaycastRawModelData)
    (entries : list (string * ModelInfo)) :
  (list_to_map (foldl (fetchModels_entries_step env) entries ms)
     : gmap string ModelInfo)
  = foldl (fetchModels_step env) (list_to_map entries) ms.
Proof.
  revert entries. induction ms as [|md ms IH]; intros entries; [done |].
  simpl. by rewrite IH, entries_step_to_map.
Qed.

Lemma entries_fold_NoDup (ms : list RaycastRawModelData)
    (entries : list (string * ModelInfo)) :
  NoDup entries.*1 ->
  NoDup (foldl (fetchModels_entries_step env) entries ms).*1.
Proof.
  revert entries. induction ms as [|md ms IH]; intros entries Hnd; [done |].
  simpl. apply IH. unfold fetchModels_entries_step.
  destruct (_ && _); [by apply Map_set_NoDup | done].
Qed.

(** With unique ids the entries are the models that pass the filter, in
    the order of the fetched list. *)
Lemma entries_fold_unique (ms : list RaycastRawModelData)
    (entries : list (string * ModelInfo)) :
  NoDup (map id ms) ->
  (forall md, md ∈ ms -> id md ∉ entries.*1) ->
  foldl (fetchModels_entries_step env) entries ms
  = entries ++ map (fun md => (id md, catalog_entry md))
                 (List.filter (passes_filter env) ms).
Proof.
  revert entries. induction ms as [|md ms IH]; intros entries Hnd Hfresh.
  - simpl. by rewrite app_nil_r.
  - simpl in Hnd. apply NoDup_cons in Hnd as [Hmd Hnd]. simpl.
    unfold fetchModels_entries_step at 2. fold (passes_filter env md).
    destruct (passes_filter env md) eqn:Hpass.
    + rewrite Map_set_fresh by (apply Hfresh; by left).
      rewrite IH; [by rewrite <- app_assoc | done |].
      intros md' Hin. rewrite fmap_app. simpl.
      intros [H | H%list_elem_of_singleton]%elem_of_app.
      * by apply (Hfresh md'); [right |].
      * apply Hmd. rewrite <- H. by apply (list_elem_of_fmap_2 id).
    + apply IH; [done |]. intros md' Hin. apply Hfresh. by right.
Qed.

End Listing.

Section ListingOfModels.
Context `{JP : JsonParse}.
Variable w : World.

(** [fetchModels_entries] is [fetchModels] with the order kept. *)
Lemma fetchModels_entries_refines (env : Env) (e : Effects) :
  fetchModels w env e
  = (list_to_map (fetchModels_entries w env e).1,
     (fetchModels_entries w env e).2)
  /\ NoDup (fetchModels_entries w env e).1.*1.
Proof.
  unfold fetchModels, fetchModels_entries. run_effects.
  destruct (models_endpoint w) as [|st [ms|]];
    [split; [done | constructor] | |].
  - destruct (negb (ok st)); [split; [done | constructor] |]. simpl. split.
    + by rewrite entries_fold_to_map.
    + apply entries_fold_NoDup. constructor.
  - destruct (negb (ok st)); split; done || constructor.
Qed.

Lemma list_models_pairs (entries : list (string * ModelInfo)) (e : Effects) :
  map (fun l => (ml_id l, owned_by l)) (Worker.list_models w entries e).1
  = map (fun kv => (kv.1, provider kv.2)) entries.
Proof.
  revert e. induction entries as [|[k info] entries IH]; intros e; [done |].
  simpl. unfold bind, ret, Date_now.
  specialize (IH {| uuid_calls := uuid_calls e;
                    clock_reads := S (clock_reads e);
                    sent := sent e |}).
  destruct (Worker.list_models w entries _) as [data e1]. simpl in *.
  by rewrite IH.
Qed.

Lemma list_models_created (entries : list (string * ModelInfo)) (e : Effects) :
  map ml_created (Worker.list_models w entries e).1
  = map (fun k => (now_at w (clock_reads e + k) `div` 1000)%Z)
      (seq 0 (length entries)).
Proof.
  revert e. induction entries as [|[k info] entries IH]; intros e; [done |].
  simpl. unfold bind, ret, Date_now.
  specialize (IH {| uuid_calls := uuid_calls e;
                    clock_reads := S (clock_reads e);
                    sent := sent e |}).
  destruct (Worker.list_models w entries _) as [data e1]. simpl in *.
  rewrite IH, Nat.add_0_r. f_equal.
  rewrite <- seq_shift, map_map. apply map_ext. intros k'.
  by rewrite Nat.add_succ_r.
Qed.

Lemma handleModels_listing (env : Env) (e : Effects) :
  listed_models (Worker.handleModels w env e).1
  = (Worker.list_models w (fetchModels_entries w env e).1
       (fetchModels_entries w env e).2).1.
Proof.
  unfold Worker.handleModels, bind, ret.
  destruct (fetchModels_entries w env e) as [entries e1]. cbn [fst snd].
  by destruct (Worker.list_models w entries e1).
Qed.

End ListingOfModels.

(** X17. When the models endpoint cannot be reached, answers outside
    200..299 or sends no [models] field, [/v1/models] does not fail: it
    answers HTTP 200 with an empty list. *)
Theorem models_listing_hides_fetch_failure :
  forall (w : World) (env : Env) (e : Effects),
    models_fetch_failed (models_endpoint w) ->
    Worker.handleModels w env e
    = ({| w_status := 200; w_headers := json_headers;
          w_body := ModelsBody [] |},
       after_models_fetch e).
Proof.
  intros w env e Hfail.
  unfold Worker.handleModels, fetchModels_entries. run_effects.
  destruct (models_endpoint w) as [|st [ms|]]; [done | |].
  - destruct Hfail as [-> | ?]; done.
  - by destruct (negb (ok st)).
Qed.

Lemma models_listing_hides_fetch_failure_witness :
  Worker.handleModels
    {| uuid_at := fun _ => "u"; now_at := fun _ => 0%Z;
       models_endpoint := ModelsHttp 503 (Some demo_models);
       chat_endpoint := fun _ => ChatNetworkError "" |}
    demo_env no_effects
  = ({| w_status := 200; w_headers := json_headers; w_body := ModelsBody [] |},
     after_models_fetch no_effects).
Proof.
  apply models_listing_hides_fetch_failure. left. reflexivity.
Defined.

(** X18. [/v1/models] lists exactly the ids that a chat completion
    accepts: an id is listed with owner [o] iff it is a key of the
    catalog that [fetchModels] resolves and [o] is the provider of its
    entry; and no id is listed twice. *)
Theorem models_listing_matches_catalog :
  forall (w : World) (env : Env) (e : Effects),
    NoDup (map ml_id (listed_models (Worker.handleModels w env e).1))
    /\ forall (k o : string),
         (exists l, l ∈ listed_models (Worker.handleModels w env e).1
                    /\ ml_id l = k /\ owned_by l = o)
         <-> exists info, (fetchModels w env e).1 !! k = Some info
                          /\ provider info = o.
Proof.
  intros w env e. rewrite handleModels_listing.
  destruct (fetchModels_entries_refines w env e) as [-> Hnd]. cbn [fst].
  pose proof (list_models_pairs w (fetchModels_entries w env e).1
                (fetchModels_entries w env e).2) as Hpairs.
  set (data := (Worker.list_models w _ _).1) in *.
  set (entries := (fetchModels_entries w env e).1) in *.
  split.
  - replace (map ml_id data)
      with (map fst (map (fun l => (ml_id l, owned_by l)) data))
      by (rewrite map_map; by apply map_ext).
    rewrite Hpairs, map_map. exact Hnd.
  - intros k o. split.
    + intros (l & Hl & <- & <-).
      assert (Hin : (ml_id l, owned_by l)
                    ∈ map (fun kv => (kv.1, provider kv.2)) entries).
      { rewrite <- Hpairs.
        by apply (list_elem_of_fmap_2 (fun l => (ml_id l, owned_by l))). }
      apply list_elem_of_fmap in Hin as ([k info] & [= Hk Ho] & Hin).
      exists info. split; [| done].
      rewrite Hk. by apply elem_of_list_to_map.
    + intros (info & Hlook & <-).
      apply elem_of_list_to_map in Hlook; [| done].
      assert (Hin : (k, provider info)
                    ∈ map (fun l => (ml_id l, owned_by l)) data).
      { rewrite Hpairs.
        by apply (list_elem_of_fmap_2 (fun kv => (kv.1, provider kv.2))
                    entries (k, info)). }
      apply list_elem_of_fmap in Hin as (l & [= Hk Ho] & Hin).
      by exists l.
Qed.

Lemma models_listing_matches_catalog_witness :
  exists l : ModelListing,
    l ∈ listed_models
          (Worker.handleModels (demo_world (ChatNetworkError "")) demo_env
             no_effects).1
    /\ ml_id l = "openai-gpt-4o-mini" /\ owned_by l = "openai".
Proof.
  apply (proj2 (proj2 (models_listing_matches_catalog
                         (demo_world (ChatNetworkError "")) demo_env
                         no_effects)
                  "openai-gpt-4o-mini" "openai")).
  exists {| provider := "openai"; model := "gpt-4o-mini" |}.
  split; [vm_compute; reflexivity | reflexivity].
Defined.

(** X19. After a successful fetch of models with unique ids,
    [/v1/models] lists the models that pass the filter in the order the
    vendor sent them, each with its provider as owner, and the k-th
    listing is stamped with the k-th clock reading in whole seconds. *)
Theorem models_listing_keeps_vendor_order :
  forall (w : World) (env : Env) (e : Effects) (st : nat)
         (ms : list RaycastRawModelData),
    models_endpoint w = ModelsHttp st (Some ms) ->
    ok st = true ->
    NoDup (map id ms) ->
    map (fun l => (ml_id l, owned_by l))
      (listed_models (Worker.handleModels w env e).1)
    = map (fun md => (id md, raw_provider md))
        (List.filter (passes_filter env) ms)
    /\ map ml_created (listed_models (Worker.handleModels w env e).1)
       = map (fun k => (now_at w (clock_reads e + k) `div` 1000)%Z)
           (seq 0 (length (List.filter (passes_filter env) ms))).
Proof.
  intros w env e st ms Hw Hok Hnd. rewrite handleModels_listing.
  assert (Hentries :
    fetchModels_entries w env e
    = (map (fun md => (id md, catalog_entry md))
         (List.filter (passes_filter env) ms), after_models_fetch e)).
  { unfold fetchModels_entries. run_effects. rewrite Hw, Hok. simpl.
    rewrite (entries_fold_unique env ms [] Hnd); [done |].
    intros md _. by intros ?%elem_of_nil. }
  rewrite Hentries. cbn [fst snd]. split.
  - rewrite list_models_pairs, map_map. by apply map_ext.
  - by rewrite list_models_created, length_map.
Qed.

Lemma models_listing_keeps_vendor_order_witness :
  map (fun l => (ml_id l, owned_by l))
    (listed_models
       (Worker.handleModels (demo_world (ChatNetworkError "")) demo_env
          no_effects).1)
  = map (fun md => (id md, raw_provider md))
      (List.filter (passes_filter demo_env) demo_models).
Proof.
  apply (models_listing_keeps_vendor_order
           (demo_world (ChatNetworkError "")) demo_env no_effects 200
           demo_models eq_refl eq_refl).
  apply (bool_decide_unpack (NoDup (map id demo_models))).
  vm_compute. exact I.
Defined.

(** ** Requests that stop before the catalog *)

(** X1. A chat request whose body has no [messages] field or an empty
    list of messages is answered with HTTP 400, type
    [invalid_request_error] and the message "Missing or invalid
    'messages' field", whatever model it names, and a body that cannot
    be read is answered with HTTP 500 of type [relay_error] and the
    message "Chat completion failed: " followed by what was thrown; in
    both cases the catalog is not fetched and nothing is drawn. *)
Theorem request_without_messages_is_rejected :
  forall (JP : JsonParse) (w : World) (env : Env) (e : Effects),
    (forall ask : OpenAIChatRequest,
        oa_messages ask = None \/ oa_messages ask = Some [] ->
        handleChatCompletions w (JsonBody ask) env e
        = (Resolved
             {| status := 400;
                body := ErrorBody "Missing or invalid 'messages' field"
                          "invalid_request_error" |}, e))
    /\ (forall err : string,
          handleChatCompletions w (JsonThrows err) env e
          = (Resolved
               {| status := 500;
                  body := ErrorBody ("Chat completion failed: " +:+ err)
                            "relay_error" |}, e)).
Proof.
  intros JP w env e. split; [| done].
  intros ask Hnone. unfold handleChatCompletions.
  by destruct Hnone as [-> | ->].
Qed.

Lemma request_without_messages_is_rejected_witness :
  @handleChatCompletions vendor_event_reader
    (demo_world (ChatHttp 200 (Some scenario_B)))
    (JsonBody {| oa_messages := Some []; oa_model := Some "no-such-model";
                 oa_temperature := None; oa_stream := Some true |})
    demo_env no_effects
  = (Resolved
       {| status := 400;
          body := ErrorBody "Missing or invalid 'messages' field"
                    "invalid_request_error" |}, no_effects).
Proof.
  apply (proj1 (request_without_messages_is_rejected vendor_event_reader
                  (demo_world (ChatHttp 200 (Some scenario_B))) demo_env
                  no_effects)).
  by right.
Defined.
